(** * keyedlit: unspecified fields in keyed composite literals

    A shallow embedding of [passes/keyedlit/keyedlit.go] and the properties
    of its analysis pass.  The Go packages the pass calls into ([strings],
    [fmt], [go/token], [go/ast], [go/types], [go/analysis]) are modelled by
    one module each, holding only what the pass uses; the pass itself is
    [keyedlit].

    Go strings are byte sequences, so they are [string] (a list of 8-bit
    [ascii]); [token.Pos] is an integer, so it is [Z]. *)

From Stdlib Require Import String Ascii List ZArith Bool Lia.
Import ListNotations.

Local Open Scope string_scope.
Local Open Scope list_scope.
Local Set Warnings "-register-all".

(* ================================================================= *)
(** ** Package strings *)

Module strings.

(** [strings.Index(s, substr)]: the byte offset of the first instance of
    [substr] in [s], or -1 when there is none. *)
Fixpoint Index (s substr : string) : Z :=
  if String.prefix substr s then 0%Z
  else match s with
       | EmptyString => (-1)%Z
       | String _ s' =>
           let i := Index s' substr in
           if (i <? 0)%Z then (-1)%Z else (i + 1)%Z
       end.

(** [func Contains(s, substr string) bool { return Index(s, substr) >= 0 }] *)
Definition Contains (s substr : string) : bool :=
  (0 <=? Index s substr)%Z.

(** [func HasSuffix(s, suffix string) bool {
      return len(s) >= len(suffix) && s[len(s)-len(suffix):] == suffix }] *)
Definition HasSuffix (s suffix : string) : bool :=
  (String.length suffix <=? String.length s)%nat
  && (String.substring (String.length s - String.length suffix)
                       (String.length suffix) s =? suffix)%string.

End strings.

(* ================================================================= *)
(** ** Package fmt *)

Module fmt.

(** [fmt.Sprintf] restricted to the one verb the pass uses, [%s] applied
    to string operands: the operand is copied as it is.  A verb with no
    operand left prints Go's [%!s(MISSING)]. *)
Fixpoint Sprintf (format : string) (args : list string) : string :=
  match format with
  | EmptyString => EmptyString
  | String c rest =>
      match c, rest with
      | "%"%char, String "s"%char rest' =>
          match args with
          | a :: args' => a ++ Sprintf rest' args'
          | [] => "%!s(MISSING)" ++ Sprintf rest' []
          end
      | _, _ => String c (Sprintf rest args)
      end
  end.

End fmt.

(* ================================================================= *)
(** ** Package go/token *)

Module token.

(** [type Pos int] *)
Definition Pos := Z.

(** [token.Position] *)
Record Position := mkPosition {
  Filename : string;
  Offset : Z;
  Line : Z;
  Column : Z
}.

(** A [token.FileSet] pointer, seen through its one method the pass calls,
    [FileSet.Position]. *)
Definition FileSet := Pos -> Position.

End token.

(* ================================================================= *)
(** ** Package go/ast *)

Module ast.

(** The expression nodes.  The pass tells apart identifiers, selector
    expressions, key/value pairs and composite literals; the other
    constructors stand for the further forms a literal's type or element
    can take. *)
Inductive Expr : Type :=
| Ident (NamePos : token.Pos) (Name : string)
| BasicLit (ValuePos : token.Pos) (Value : string)
| SelectorExpr (X : Expr) (SelPos : token.Pos) (Sel : string)
| IndexExpr (X : Expr) (Index : Expr)
| ArrayType (Lbrack : token.Pos) (Elt : Expr)
| MapType (Map : token.Pos) (Key : Expr) (Value : Expr)
| StructType (Struct : token.Pos)
| KeyValueExpr (Key : Expr) (Colon : token.Pos) (Value : Expr)
| CompositeLit (Type_ : option Expr) (Lbrace : token.Pos)
               (Elts : list Expr) (Rbrace : token.Pos).

(** [(ast.Node).Pos]: the position of the first character of the node.
    A composite literal starts at its type, or at its brace when the type
    is elided. *)
Fixpoint Pos (x : Expr) : token.Pos :=
  match x with
  | Ident p _ => p
  | BasicLit p _ => p
  | SelectorExpr X _ _ => Pos X
  | IndexExpr X _ => Pos X
  | ArrayType p _ => p
  | MapType p _ _ => p
  | StructType p => p
  | KeyValueExpr k _ _ => Pos k
  | CompositeLit (Some t) _ _ _ => Pos t
  | CompositeLit None lb _ _ => lb
  end.

(** The dynamic type test [_, ok := e.(KeyValueExpr)] (on pointer types). *)
Definition isKeyValueExpr (e : Expr) : bool :=
  match e with
  | KeyValueExpr _ _ _ => true
  | _ => false
  end.

(** Membership in the node filter of composite-literal nodes. *)
Definition isCompositeLit (n : Expr) : bool :=
  match n with
  | CompositeLit _ _ _ _ => true
  | _ => false
  end.

End ast.

(* ================================================================= *)
(** ** Package go/types *)

Module types.

(** A struct field, a [types.Var] pointer, seen through the three methods
    the pass calls on it: [Name()], [Exported()] and [Type().String()].
    go/types answers [Exported()] from the first letter of the name; the
    pass only reads the answer, which is kept here as reported. *)
Record Var := mkVar {
  Name : string;
  Exported : bool;
  Type_String : string
}.

(** [types.Type].  Only [Struct] carries data the pass reads. *)
Inductive Type_ : Type :=
| Invalid
| Basic (name : string)
| Named (name : string) (underlying : Type_)
| Pointer (elem : Type_)
| Slice (elem : Type_)
| Array (len : Z) (elem : Type_)
| Map (key elem : Type_)
| Struct (fields : list Var).

(** [(types.Type).Underlying]: a named type resolves to the type it was
    declared as, every other type is its own underlying type. *)
Fixpoint Underlying (t : Type_) : Type_ :=
  match t with
  | Named _ u => Underlying u
  | _ => t
  end.

End types.

(* ================================================================= *)
(** ** Package go/analysis *)

Module analysis.

(** [analysis.Diagnostic], with the two fields [Reportf] fills in. *)
Record Diagnostic := mkDiagnostic {
  Pos : token.Pos;
  Message : string
}.

(** [analysis.Pass], with what [run] reads from it: the file set, the type
    oracle [TypesInfo.TypeOf], and the result of the [inspect] analyzer,
    an inspector, held as the nodes of the unit in the order its
    depth-first traversal meets them.  The unit comes type-checked: the
    oracle answers for every literal, with [types.Invalid] where the type
    did not resolve. *)
Record Pass := mkPass {
  Fset : token.FileSet;
  TypesInfo_TypeOf : ast.Expr -> types.Type_;
  ResultOf_inspect : list ast.Expr
}.

(** How a computation of the pass ends: normally, or in a run-time panic
    (a failed unchecked type assertion). *)
Inductive outcome (A : Type) : Type :=
| Done (a : A)
| Panicked (msg : string).
Arguments Done {A} a.
Arguments Panicked {A} msg.

(** Computations over the host's reporting sink: the diagnostics reported
    so far, oldest first.  What was reported before a panic stays
    reported. *)
Definition M (A : Type) : Type :=
  list Diagnostic -> outcome A * list Diagnostic.

Definition ret {A} (a : A) : M A := fun sink => (Done a, sink).

Definition bind {A B} (m : M A) (k : A -> M B) : M B :=
  fun sink =>
    match m sink with
    | (Done a, sink') => k a sink'
    | (Panicked msg, sink') => (Panicked msg, sink')
    end.

Definition panic {A} (msg : string) : M A := fun sink => (Panicked msg, sink).

(** [pass.Report(d)] hands [d] to the sink. *)
Definition Report (d : Diagnostic) : M unit :=
  fun sink => (Done tt, sink ++ [d]).

(** [func (pass *Pass) Reportf(pos token.Pos, format string, args ...interface{})]
    reports [Diagnostic{Pos: pos, Message: fmt.Sprintf(format, args...)}]. *)
Definition Reportf (pos : token.Pos) (format : string) (args : list string)
  : M unit :=
  Report (mkDiagnostic pos (fmt.Sprintf format args)).

(** [(Inspector).Preorder(types, f)]: [f] is called on each node whose
    type is in the filter, in depth-first order. *)
Fixpoint Preorder (nodes : list ast.Expr) (filter : ast.Expr -> bool)
         (f : ast.Expr -> M unit) : M unit :=
  match nodes with
  | [] => ret tt
  | n :: rest =>
      bind (if filter n then f n else ret tt)
           (fun _ => Preorder rest filter f)
  end.

End analysis.

Declare Scope pass_scope.
Delimit Scope pass_scope with pass.
Notation "x <- m ;; k" := (analysis.bind m (fun x => k))
  (at level 61, m at next level, right associativity) : pass_scope.
Notation "m ;;; k" := (analysis.bind m (fun _ => k))
  (at level 61, right associativity) : pass_scope.

(* ================================================================= *)
(** ** Package keyedlit *)

Module keyedlit.

Import analysis.
Local Open Scope pass_scope.

Section Flags.

(** The package-level flag [strictF], set from [-strict] before the run
    and only read by the pass. *)
Variable strictF : bool.

(** [func mustBeSpecified(field *types.Var) bool] *)
Definition mustBeSpecified (field : types.Var) : bool :=
  if strictF then
    (* In strict mode, all exported fields must be specified. *)
    types.Exported field
  else if strings.Contains (types.Name field) "KeepAlive"
          && (types.Type_String field =? "time.Duration")%string then true
  else if strings.Contains (types.Name field) "Timeout"
          && (types.Type_String field =? "time.Duration")%string then true
  else false.

(** The [switch x := lit.Type.(type)] that names the literal's type:
    [x.Sel.String()] for a selector expression, [x.String()] for an
    identifier, and no name ([default: return]) for anything else,
    an elided type included. *)
Definition typeName (lit_Type : option ast.Expr) : option string :=
  match lit_Type with
  | Some (ast.SelectorExpr _ _ sel) => Some sel
  | Some (ast.Ident _ name) => Some name
  | _ => None
  end.

(** The loop [for _, e := range lit.Elts] that sets [isKeyedLiteral].
    [None] is the [return] from inside the loop, at the first element
    that is no key/value pair; [Some b] is the value of
    [isKeyedLiteral] when the loop ends, starting from [isKeyedLiteral]. *)
Fixpoint keyedScan (isKeyedLiteral : bool) (elts : list ast.Expr)
  : option bool :=
  match elts with
  | [] => Some isKeyedLiteral
  | e :: rest =>
      if ast.isKeyValueExpr e then keyedScan true rest
      else None
  end.

(** The inner loop [for _, el := range lit.Elts] of the field check: the
    final value of [fieldIsSpecified] for the field called [fieldName].
    [kve := el.(KeyValueExpr)] is unchecked and panics on any other
    element; a key that is no identifier is skipped ([continue]); the
    first key equal to the field name ends the loop ([break]). *)
Fixpoint fieldIsSpecified (fieldName : string) (elts : list ast.Expr)
  : M bool :=
  match elts with
  | [] => ret false
  | el :: rest =>
      match el with
      | ast.KeyValueExpr key _ _ =>
          match key with
          | ast.Ident _ name =>
              if (name =? fieldName)%string then ret true
              else fieldIsSpecified fieldName rest
          | _ => fieldIsSpecified fieldName rest
          end
      | _ =>
          panic "interface conversion: ast.Expr is not *ast.KeyValueExpr"
      end
  end.

(** The loop [for ii := 0; ii < s.NumFields(); ii++] over
    [field := s.Field(ii)], on the fields from index [ii] on. *)
Fixpoint checkFields (lit_Pos : token.Pos) (tyName : string)
         (elts : list ast.Expr) (fields : list types.Var) : M unit :=
  match fields with
  | [] => ret tt
  | field :: rest =>
      (if mustBeSpecified field then
         specified <- fieldIsSpecified (types.Name field) elts ;;
         if negb specified then
           Reportf lit_Pos "unspecified field %s of %s"
                   [types.Name field; tyName]
         else ret tt
       else ret tt) ;;;
      checkFields lit_Pos tyName elts rest
  end.

(** The function literal [run] hands to [inspect.Preorder]. *)
Definition visit (pass : Pass) (n : ast.Expr) : M unit :=
  (* Skip tests. *)
  if strings.HasSuffix
       (token.Filename (Fset pass (ast.Pos n))) "_test.go"
  then ret tt
  else
    match n with
    | ast.CompositeLit lit_Type _ lit_Elts _ =>
        (* Get the type being created. *)
        let t := types.Underlying (TypesInfo_TypeOf pass n) in
        (* Ignore it unless the type is that of a struct. *)
        match t with
        | types.Struct fields =>
            match typeName lit_Type with
            | None => ret tt
            | Some tyName =>
                (* Ignore unless this is a keyed composite literal. *)
                match keyedScan false lit_Elts with
                | None => ret tt
                | Some false => ret tt
                | Some true =>
                    checkFields (ast.Pos n) tyName lit_Elts fields
                end
            end
        | _ => ret tt
        end
    | _ => panic "interface conversion: ast.Node is not *ast.CompositeLit"
    end.

(** [func run(pass *analysis.Pass) (interface{}, error)]; both results
    are always [nil], so only the effect on the sink is kept. *)
Definition run (pass : Pass) : M unit :=
  Preorder (ResultOf_inspect pass) ast.isCompositeLit (visit pass).

End Flags.

End keyedlit.

(* ================================================================= *)
(** ** Notions the properties are stated with *)

Module props.

Import analysis.

(** [e] is a key/value pair whose key is the identifier [name]. *)
Definition keyIs (name : string) (e : ast.Expr) : bool :=
  match e with
  | ast.KeyValueExpr (ast.Ident _ k) _ _ => (k =? name)%string
  | _ => false
  end.

(** [name] is in the key set of the literal: one of its elements has the
    identifier [name] as its key.  Keys that are no identifiers add
    nothing to the set. *)
Definition hasKey (name : string) (elts : list ast.Expr) : bool :=
  existsb (keyIs name) elts.

(** No element of the literal is positional.  This holds of the literal
    with no elements. *)
Definition fullyKeyed (elts : list ast.Expr) : bool :=
  forallb ast.isKeyValueExpr elts.

(** The field is required in the mode [strictF] and absent from the key
    set. *)
Definition missing (strictF : bool) (elts : list ast.Expr)
           (field : types.Var) : bool :=
  keyedlit.mustBeSpecified strictF field
  && negb (hasKey (types.Name field) elts).

(** The diagnostic for [field], of a literal at [pos] whose type is named
    [tyName]. *)
Definition report (pos : token.Pos) (tyName : string) (field : types.Var)
  : Diagnostic :=
  mkDiagnostic pos
    ("unspecified field " ++ types.Name field ++ " of " ++ tyName)%string.

(** The node [n] passes every guard of [keyedlit.visit] and reaches the
    loop over the fields: it is outside the test files, it is a composite
    literal with elements [elts], all of them key/value pairs and at least
    one of them, the underlying type is a struct with the fields [fields],
    and its type expression gives the name [tyName]. *)
Definition Accepted (pass : Pass) (n : ast.Expr) (fields : list types.Var)
           (tyName : string) (elts : list ast.Expr) : Prop :=
  strings.HasSuffix (token.Filename (Fset pass (ast.Pos n))) "_test.go"
    = false
  /\ (exists ty lb rb,
        n = ast.CompositeLit ty lb elts rb
        /\ keyedlit.typeName ty = Some tyName)
  /\ types.Underlying (TypesInfo_TypeOf pass n) = types.Struct fields
  /\ elts <> []
  /\ fullyKeyed elts = true.

(** Diagnostics are compared by position and message. *)
Definition Diagnostic_eq_dec (d1 d2 : Diagnostic) : {d1 = d2} + {d1 <> d2}.
Proof.
  decide equality; [apply string_dec | apply Z.eq_dec].
Defined.

(** How many times the diagnostic [d] stands in [ds]. *)
Definition occurrences (d : Diagnostic) (ds : list Diagnostic) : nat :=
  count_occ Diagnostic_eq_dec ds d.

(** What a computation reports, started on an empty sink. *)
Definition reported (m : M unit) : list Diagnostic := snd (m []).

(** [sub] occurs in [s]. *)
Definition Substring (sub s : string) : Prop :=
  exists pre post, s = (pre ++ sub ++ post)%string.

(** The literal is in a file of the unit proper, its underlying type is a
    struct with the fields [fields], and its type expression gives the name
    [tyName]: every guard of [keyedlit.visit] but the scan of the elements
    lets it through. *)
Definition StructLiteral (pass : Pass) (ty : option ast.Expr)
           (lb rb : token.Pos) (elts : list ast.Expr)
           (fields : list types.Var) (tyName : string) : Prop :=
  let n := ast.CompositeLit ty lb elts rb in
  strings.HasSuffix (token.Filename (Fset pass (ast.Pos n))) "_test.go"
    = false
  /\ types.Underlying (TypesInfo_TypeOf pass n) = types.Struct fields
  /\ keyedlit.typeName ty = Some tyName.

(** *** Three rules as the specification words them

    Each is compared with the pass below. *)

(** "A struct literal with zero elements is fully keyed vacuously and so is
    accepted: every must-specify field will be reported missing." *)
Definition spec_empty_literal_reports_required : Prop :=
  forall strictF pass ty lb rb fields tyName sink,
    StructLiteral pass ty lb rb [] fields tyName ->
    keyedlit.visit strictF pass (ast.CompositeLit ty lb [] rb) sink
    = (Done tt,
       sink ++ map (report (ast.Pos (ast.CompositeLit ty lb [] rb)) tyName)
                   (filter (keyedlit.mustBeSpecified strictF) fields)).

(** "Unexported fields never trigger a diagnostic in any mode." *)
Definition spec_unexported_never_reported : Prop :=
  forall strictF pass ty lb rb elts fields tyName f,
    StructLiteral pass ty lb rb elts fields tyName ->
    fullyKeyed elts = true ->
    In f fields ->
    types.Exported f = false ->
    ~ In (report (ast.Pos (ast.CompositeLit ty lb elts rb)) tyName f)
         (reported (keyedlit.visit strictF pass
                                   (ast.CompositeLit ty lb elts rb))).

(** "Strict mode: for all exported fields absent from a fully-keyed struct
    literal's key set, exactly one diagnostic is emitted", the literal with
    no elements being fully keyed. *)
Definition spec_strict_reports_each_exported : Prop :=
  forall pass ty lb rb elts fields tyName sink,
    StructLiteral pass ty lb rb elts fields tyName ->
    fullyKeyed elts = true ->
    keyedlit.visit true pass (ast.CompositeLit ty lb elts rb) sink
    = (Done tt,
       sink ++ map (report (ast.Pos (ast.CompositeLit ty lb elts rb)) tyName)
                   (filter (fun f => types.Exported f
                                     && negb (hasKey (types.Name f) elts))
                           fields)).

End props.

(* ================================================================= *)
(** ** A sample unit *)

(** One compilation unit with the file [client.go], holding the positions
    below 1000, and the test file [client_test.go], holding the others.  It
    declares

      type Client struct { Addr string; Timeout time.Duration }
      type Opts struct { Timeout time.Duration; Retries int;
                         cache map[string]string }
      type Conn struct { Addr string; readTimeout time.Duration }
      type Headers map[string]string

    and the literals below are written in it. *)
Module sample.

Import analysis.
Local Open Scope Z_scope.

Definition Addr : types.Var := types.mkVar "Addr" true "string".
Definition Timeout_ : types.Var := types.mkVar "Timeout" true "time.Duration".
Definition Retries : types.Var := types.mkVar "Retries" true "int".
Definition cache : types.Var := types.mkVar "cache" false "map[string]string".
Definition readTimeout : types.Var :=
  types.mkVar "readTimeout" false "time.Duration".
Definition Idle : types.Var := types.mkVar "Idle" true "time.Duration".

Definition Client : types.Type_ :=
  types.Named "Client" (types.Struct [Addr; Timeout_]).
Definition Opts : types.Type_ :=
  types.Named "Opts" (types.Struct [Timeout_; Retries; cache]).
Definition Conn : types.Type_ :=
  types.Named "Conn" (types.Struct [Addr; readTimeout]).
Definition Headers : types.Type_ :=
  types.Named "Headers"
    (types.Map (types.Basic "string") (types.Basic "string")).

(** A string literal's text, with its quotes (byte 34). *)
Definition quoted (s : string) : string :=
  String (ascii_of_nat 34) (s ++ String (ascii_of_nat 34) "")%string.

Definition fset : token.FileSet :=
  fun p =>
    token.mkPosition (if p <? 1000 then "client.go" else "client_test.go")
                     p 1 (p + 1).

(** The type of a literal of the unit, by the name its type expression
    ends in; the one literal of an unnamed struct type has that type. *)
Definition typeOf (e : ast.Expr) : types.Type_ :=
  match e with
  | ast.CompositeLit (Some (ast.StructType _)) _ _ _ =>
      types.Struct [Timeout_; Idle]
  | ast.CompositeLit ty _ _ _ =>
      match keyedlit.typeName ty with
      | Some name =>
          if (name =? "Client")%string then Client
          else if (name =? "Opts")%string then Opts
          else if (name =? "Conn")%string then Conn
          else if (name =? "Headers")%string then Headers
          else types.Invalid
      | None => types.Invalid
      end
  | _ => types.Invalid
  end.

(** [Client{Addr: "x"}] *)
Definition client_addr_elts : list ast.Expr :=
  [ast.KeyValueExpr (ast.Ident 107 "Addr") 111 (ast.BasicLit 113 (quoted "x"))].
Definition client_addr : ast.Expr :=
  ast.CompositeLit (Some (ast.Ident 100 "Client")) 106 client_addr_elts 116.

(** [Client{Addr: "x", Timeout: 5}] *)
Definition client_full : ast.Expr :=
  ast.CompositeLit (Some (ast.Ident 200 "Client")) 206
    [ast.KeyValueExpr (ast.Ident 207 "Addr") 211 (ast.BasicLit 213 (quoted "x"));
     ast.KeyValueExpr (ast.Ident 218 "Timeout") 225 (ast.BasicLit 227 "5")]
    228.

(** [Client{Addr: "x", 5}] *)
Definition client_mixed_elts : list ast.Expr :=
  [ast.KeyValueExpr (ast.Ident 307 "Addr") 311 (ast.BasicLit 313 (quoted "x"));
   ast.BasicLit 318 "5"].
Definition client_mixed : ast.Expr :=
  ast.CompositeLit (Some (ast.Ident 300 "Client")) 306 client_mixed_elts 319.

(** [Opts{}] *)
Definition opts_empty : ast.Expr :=
  ast.CompositeLit (Some (ast.Ident 400 "Opts")) 404 [] 405.

(** [Opts{Retries: 3}] *)
Definition opts_retries_elts : list ast.Expr :=
  [ast.KeyValueExpr (ast.Ident 505 "Retries") 512 (ast.BasicLit 514 "3")].
Definition opts_retries : ast.Expr :=
  ast.CompositeLit (Some (ast.Ident 500 "Opts")) 504 opts_retries_elts 515.

(** [Conn{Addr: "x"}] *)
Definition conn_addr_elts : list ast.Expr :=
  [ast.KeyValueExpr (ast.Ident 605 "Addr") 609 (ast.BasicLit 611 (quoted "x"))].
Definition conn_addr : ast.Expr :=
  ast.CompositeLit (Some (ast.Ident 600 "Conn")) 604 conn_addr_elts 614.

(** [Headers{"a": "b"}], a literal of a named map type *)
Definition headers_elts : list ast.Expr :=
  [ast.KeyValueExpr (ast.BasicLit 708 (quoted "a")) 711
                    (ast.BasicLit 713 (quoted "b"))].
Definition headers_lit : ast.Expr :=
  ast.CompositeLit (Some (ast.Ident 700 "Headers")) 707 headers_elts 716.

(** [struct{ Timeout, Idle time.Duration }{Idle: 5}], of an unnamed struct
    type; its field [Timeout] is left out. *)
Definition unnamed_elts : list ast.Expr :=
  [ast.KeyValueExpr (ast.Ident 837 "Idle") 841 (ast.BasicLit 843 "5")].
Definition unnamed_lit : ast.Expr :=
  ast.CompositeLit (Some (ast.StructType 800)) 836 unnamed_elts 844.

(** [netx.Client{Addr: "x"}], the type named through a package *)
Definition qualified_lit : ast.Expr :=
  ast.CompositeLit (Some (ast.SelectorExpr (ast.Ident 900 "netx") 905 "Client"))
    911
    [ast.KeyValueExpr (ast.Ident 912 "Addr") 916 (ast.BasicLit 918 (quoted "x"))]
    921.

(** [Client{Addr: "x"}] again, in the test file *)
Definition client_in_test : ast.Expr :=
  ast.CompositeLit (Some (ast.Ident 1100 "Client")) 1106
    [ast.KeyValueExpr (ast.Ident 1107 "Addr") 1111
                      (ast.BasicLit 1113 (quoted "x"))]
    1116.

(** The unit as the inspector walks it: every literal, and between them
    nodes the filter drops. *)
Definition nodes : list ast.Expr :=
  [client_addr; ast.Ident 100 "Client"; client_full; client_mixed;
   opts_empty; opts_retries; ast.Ident 505 "Retries"; conn_addr;
   headers_lit; unnamed_lit; qualified_lit; client_in_test].

Definition pass : Pass := mkPass fset typeOf nodes.

End sample.

(* ================================================================= *)
(** ** Further notions: key names, messages, test files *)

Module unit.

Import analysis.

(** The names the literal gives as identifier keys, in the order of its
    elements: what the inner loop of the field check compares with a field
    name.  Elements that are no key/value pairs and keys that are no
    identifiers give no name. *)
Fixpoint keyNames (elts : list ast.Expr) : list string :=
  match elts with
  | [] => []
  | ast.KeyValueExpr (ast.Ident _ k) _ _ :: rest => k :: keyNames rest
  | _ :: rest => keyNames rest
  end.

(** The message [Reportf] formats for a field name and a type name. *)
Definition unspecified (fieldName tyName : string) : string :=
  ("unspecified field " ++ fieldName ++ " of " ++ tyName)%string.

(** The messages a computation reports, oldest first. *)
Definition messages (m : M unit) : list string :=
  map Message (props.reported m).

(** The guard [strings.HasSuffix(pass.Fset.Position(n.Pos()).Filename,
    "_test.go")] of the visit. *)
Definition inTestFile (pass : Pass) (n : ast.Expr) : bool :=
  strings.HasSuffix (token.Filename (Fset pass (ast.Pos n))) "_test.go".

(** The pass over other nodes, with the same file set and type oracle. *)
Definition withNodes (pass : Pass) (nodes : list ast.Expr) : Pass :=
  mkPass (Fset pass) (TypesInfo_TypeOf pass) nodes.

(** The name a type expression gives the literal, read off the expression
    itself: a simple name is used directly, a qualified name gives its
    final, selected identifier, and no other expression gives a name. *)
Inductive TypeNamed : option ast.Expr -> string -> Prop :=
| TypeNamed_ident (pos : token.Pos) (name : string) :
    TypeNamed (Some (ast.Ident pos name)) name
| TypeNamed_selector (X : ast.Expr) (pos : token.Pos) (sel : string) :
    TypeNamed (Some (ast.SelectorExpr X pos sel)) sel.

(** The report rule for accepted literals as the specification words it,
    with its classifier: "accept only literals that are fully keyed struct
    literals with a derivable type name", the literal with zero elements
    being "fully keyed vacuously and so accepted"; for these every required
    field absent from the key set is reported, in declaration order. *)
Definition spec_accepted_literal_reports_missing : Prop :=
  forall strictF pass ty lb rb elts fields tyName sink,
    inTestFile pass (ast.CompositeLit ty lb elts rb) = false ->
    types.Underlying (TypesInfo_TypeOf pass (ast.CompositeLit ty lb elts rb))
    = types.Struct fields ->
    TypeNamed ty tyName ->
    props.fullyKeyed elts = true ->
    keyedlit.visit strictF pass (ast.CompositeLit ty lb elts rb) sink
    = (Done tt,
       sink ++
       map (fun field =>
              mkDiagnostic (ast.Pos (ast.CompositeLit ty lb elts rb))
                           (unspecified (types.Name field) tyName))
           (filter (fun field =>
                      keyedlit.mustBeSpecified strictF field
                      && negb (props.hasKey (types.Name field) elts))
                   fields)).

End unit.

(** More literals for the sample unit, and a struct without duration
    fields:

      type Point struct { X int; Y int } *)
Module sample_more.

Import analysis.
Local Open Scope Z_scope.

(** [Client{a.B: 1, Addr: "y"}]: one key that is no identifier, and the key
    [Addr] with another value than in [sample.client_addr]. *)
Definition client_odd_elts : list ast.Expr :=
  [ast.KeyValueExpr (ast.SelectorExpr (ast.Ident 17 "a") 19 "B") 20
                    (ast.BasicLit 22 "1");
   ast.KeyValueExpr (ast.Ident 25 "Addr") 29
                    (ast.BasicLit 31 (sample.quoted "y"))].
Definition client_odd : ast.Expr :=
  ast.CompositeLit (Some (ast.Ident 10 "Client")) 16 client_odd_elts 34.

(** The elements of [sample.client_full], [Client{Addr: "x", Timeout: 5}]. *)
Definition client_full_elts : list ast.Expr :=
  [ast.KeyValueExpr (ast.Ident 207 "Addr") 211
                    (ast.BasicLit 213 (sample.quoted "x"));
   ast.KeyValueExpr (ast.Ident 218 "Timeout") 225 (ast.BasicLit 227 "5")].

(** The elements of [sample.qualified_lit], [netx.Client{Addr: "x"}]. *)
Definition qualified_elts : list ast.Expr :=
  [ast.KeyValueExpr (ast.Ident 912 "Addr") 916
                    (ast.BasicLit 918 (sample.quoted "x"))].

(** [netx.Client{}], the type named through a package and no element *)
Definition qualified_empty : ast.Expr :=
  ast.CompositeLit (Some (ast.SelectorExpr (ast.Ident 60 "netx") 64 "Client"))
    71 [] 72.

Definition X : types.Var := types.mkVar "X" true "int".
Definition Y : types.Var := types.mkVar "Y" true "int".
Definition Point : types.Type_ := types.Named "Point" (types.Struct [X; Y]).

(** [Point{X: 1}] *)
Definition point_elts : list ast.Expr :=
  [ast.KeyValueExpr (ast.Ident 46 "X") 47 (ast.BasicLit 49 "1")].
Definition point_lit : ast.Expr :=
  ast.CompositeLit (Some (ast.Ident 40 "Point")) 45 point_elts 50.

(** The oracle of the sample unit, knowing [Point] too. *)
Definition typeOf (e : ast.Expr) : types.Type_ :=
  match e with
  | ast.CompositeLit (Some (ast.Ident _ name)) _ _ _ =>
      if (name =? "Point")%string then Point else sample.typeOf e
  | _ => sample.typeOf e
  end.

Definition pass : Pass :=
  mkPass sample.fset typeOf (client_odd :: point_lit :: sample.nodes).

End sample_more.

(* ================================================================= *)
(** ** Facts about the string functions *)

Section StringFacts.

Local Open Scope string_scope.

Lemma append_empty_r (s : string) : s ++ "" = s.
Proof. induction s as [|c s IH]; simpl; congruence. Qed.

Lemma append_assoc (a b c : string) : (a ++ b) ++ c = a ++ (b ++ c).
Proof. induction a as [|x a IH]; simpl; congruence. Qed.

Lemma length_append (a b : string) :
  String.length (a ++ b) = String.length a + String.length b.
Proof. induction a as [|x a IH]; simpl; congruence. Qed.

(** [String.prefix p s] holds exactly when [s] starts with [p]. *)
Lemma prefix_iff (p s : string) :
  String.prefix p s = true <-> exists t, s = p ++ t.
Proof.
  revert s; induction p as [|a p IH]; intros s.
  - destruct s; simpl; split; eauto.
  - destruct s as [|b s]; simpl.
    + split; [discriminate | intros [t Ht]; discriminate].
    + destruct (ascii_dec a b) as [->|Hab].
      * rewrite IH. split; intros [t Ht]; exists t; congruence.
      * split; [discriminate | intros [t Ht]; congruence].
Qed.

(** [Index] is -1 or an offset. *)
Lemma Index_lower_bound (s sub : string) : (-1 <= strings.Index s sub)%Z.
Proof.
  induction s as [|c s IH]; cbn [strings.Index].
  - destruct (String.prefix sub ""); lia.
  - destruct (String.prefix sub (String c s)); [lia|].
    destruct (Z.ltb_spec (strings.Index s sub) 0); lia.
Qed.

(** [Index] finds an occurrence exactly when there is one. *)
Lemma Index_found_iff (s sub : string) :
  (0 <= strings.Index s sub)%Z <-> exists pre post, s = pre ++ sub ++ post.
Proof.
  induction s as [|c s IH].
  - cbn [strings.Index]. destruct (String.prefix sub "") eqn:Hp.
    + apply prefix_iff in Hp as [t Ht]. split; [|lia].
      intros _. exists "", t. exact Ht.
    + split; [lia|]. intros (pre & post & H).
      destruct pre; [|discriminate]. simpl in H.
      assert (String.prefix sub "" = true) by (apply prefix_iff; eauto).
      congruence.
  - cbn [strings.Index].
    destruct (String.prefix sub (String c s)) eqn:Hp.
    + apply prefix_iff in Hp as [t Ht]. split; [|lia].
      intros _. exists "", t. exact Ht.
    + destruct (Z.ltb_spec (strings.Index s sub) 0) as [Hlt|Hge].
      * split; [lia|]. intros (pre & post & H).
        destruct pre as [|x pre]; simpl in H.
        -- assert (String.prefix sub (String c s) = true)
             by (apply prefix_iff; eauto).
           congruence.
        -- injection H as _ H.
           assert (0 <= strings.Index s sub)%Z by (apply IH; eauto).
           lia.
      * split; [|lia]. intros _.
        apply IH in Hge as (pre & post & H).
        exists (String c pre), post. simpl. congruence.
Qed.

(** [strings.Contains] is substring containment. *)
Lemma Contains_iff (s sub : string) :
  strings.Contains s sub = true <-> exists pre post, s = pre ++ sub ++ post.
Proof.
  unfold strings.Contains. rewrite Z.leb_le. apply Index_found_iff.
Qed.

Lemma substring_skip (pre s : string) (m : nat) :
  String.substring (String.length pre) m (pre ++ s) = String.substring 0 m s.
Proof. induction pre as [|c pre IH]; simpl; auto. Qed.

Lemma substring_all (s : string) :
  String.substring 0 (String.length s) s = s.
Proof. induction s as [|c s IH]; simpl; congruence. Qed.

Lemma substring_split (s : string) (n : nat) :
  n <= String.length s ->
  s = String.substring 0 n s
      ++ String.substring n (String.length s - n) s.
Proof.
  revert n; induction s as [|c s IH]; intros n Hn; simpl in *.
  - destruct n; simpl; [reflexivity | lia].
  - destruct n as [|n]; simpl.
    + now rewrite substring_all.
    + f_equal. apply IH. lia.
Qed.

(** [strings.HasSuffix] holds exactly when the string ends with the
    suffix. *)
Lemma HasSuffix_iff (s suffix : string) :
  strings.HasSuffix s suffix = true <-> exists pre, s = pre ++ suffix.
Proof.
  unfold strings.HasSuffix. rewrite andb_true_iff, Nat.leb_le, String.eqb_eq.
  split.
  - intros [Hlen Hsub].
    exists (String.substring 0 (String.length s - String.length suffix) s).
    pose proof (substring_split s
                  (String.length s - String.length suffix)) as H.
    replace (String.length s - (String.length s - String.length suffix))
      with (String.length suffix) in H by lia.
    rewrite Hsub in H. apply H. lia.
  - intros [pre ->]. rewrite length_append. split; [lia|].
    replace (String.length pre + String.length suffix - String.length suffix)
      with (String.length pre) by lia.
    rewrite substring_skip. apply substring_all.
Qed.

Lemma append_inj_r (a b s : string) : a ++ s = b ++ s -> a = b.
Proof.
  revert b; induction a as [|x a IH]; intros [|y b] H; simpl in H.
  - reflexivity.
  - apply (f_equal String.length) in H. simpl in H.
    rewrite length_append in H. lia.
  - apply (f_equal String.length) in H. simpl in H.
    rewrite length_append in H. lia.
  - injection H as -> H. f_equal. now apply IH.
Qed.

(** The message of a report, with the format string of the pass
    expanded. *)
Lemma Sprintf_unspecified (fieldName tyName : string) :
  fmt.Sprintf "unspecified field %s of %s" [fieldName; tyName]
  = "unspecified field " ++ fieldName ++ " of " ++ tyName.
Proof.
  cbn [fmt.Sprintf append]. rewrite append_empty_r. reflexivity.
Qed.

End StringFacts.

(* ================================================================= *)
(** ** The loops of the pass *)

Section Loops.

Import analysis props.

Variable strictF : bool.

Lemma keyedScan_true (elts : list ast.Expr) :
  keyedlit.keyedScan true elts
  = if fullyKeyed elts then Some true else None.
Proof.
  induction elts as [|e elts IH]; simpl; [reflexivity|].
  destruct (ast.isKeyValueExpr e); simpl; auto.
Qed.

(** The scan lets a literal through exactly when it has an element and
    every element is a key/value pair. *)
Lemma keyedScan_accepts (elts : list ast.Expr) :
  keyedlit.keyedScan false elts = Some true
  <-> elts <> [] /\ fullyKeyed elts = true.
Proof.
  destruct elts as [|e elts]; simpl.
  - split; [discriminate | intros [H _]; now elim H].
  - destruct (ast.isKeyValueExpr e); simpl.
    + rewrite keyedScan_true. destruct (fullyKeyed elts); split;
        intros H; try discriminate; try (split; congruence).
      destruct H; discriminate.
    + split; [discriminate | intros [_ H]; discriminate].
Qed.

(** On a fully keyed literal the inner loop ends normally, leaves the
    sink alone and answers whether the field name is in the key set. *)
Lemma fieldIsSpecified_keyed (name : string) (elts : list ast.Expr)
      (sink : list Diagnostic) :
  fullyKeyed elts = true ->
  keyedlit.fieldIsSpecified name elts sink = (Done (hasKey name elts), sink).
Proof.
  induction elts as [|el elts IH]; intros Hk; [reflexivity|].
  simpl in Hk. apply andb_true_iff in Hk as [Hel Hk].
  destruct el as [| | | | | | |key colon value|]; try discriminate Hel.
  cbn [keyedlit.fieldIsSpecified hasKey existsb].
  destruct key as [kpos k| | | | | | | |]; cbn [keyIs orb];
    try (apply IH; exact Hk).
  destruct (k =? name)%string; [reflexivity | apply IH; exact Hk].
Qed.

(** On a fully keyed literal the loop over the fields reports the missing
    fields, one diagnostic each, in the order of the fields. *)
Lemma checkFields_keyed (pos : token.Pos) (tyName : string)
      (elts : list ast.Expr) (fields : list types.Var)
      (sink : list Diagnostic) :
  fullyKeyed elts = true ->
  keyedlit.checkFields strictF pos tyName elts fields sink
  = (Done tt,
     sink ++ map (report pos tyName) (filter (missing strictF elts) fields)).
Proof.
  intros Hk. revert sink.
  induction fields as [|f fields IH]; intros sink.
  - simpl. now rewrite app_nil_r.
  - cbn [keyedlit.checkFields filter]. unfold missing at 1, bind.
    destruct (keyedlit.mustBeSpecified strictF f); cbn [andb].
    + rewrite fieldIsSpecified_keyed by exact Hk.
      destruct (hasKey (types.Name f) elts); cbn [negb].
      * unfold ret. apply IH.
      * unfold Reportf, Report. rewrite IH, Sprintf_unspecified.
        cbn [map]. unfold report at 2.
        now rewrite <- app_assoc.
    + unfold ret. apply IH.
Qed.

(** Two reports for one literal are the same diagnostic only for fields of
    one name. *)
Lemma report_inj (pos : token.Pos) (tyName : string) (f g : types.Var) :
  report pos tyName f = report pos tyName g -> types.Name f = types.Name g.
Proof.
  unfold report. intros H. injection H as H.
  now apply append_inj_r in H.
Qed.

Lemma occurrences_other (pos : token.Pos) (tyName : string)
      (elts : list ast.Expr) (fields : list types.Var) (f : types.Var) :
  ~ In (types.Name f) (map types.Name fields) ->
  occurrences (report pos tyName f)
              (map (report pos tyName) (filter (missing strictF elts) fields))
  = 0.
Proof.
  intros Hnot. apply count_occ_not_In. intros Hin.
  apply in_map_iff in Hin as (g & Hg & Hin).
  apply filter_In in Hin as [Hin _]. apply Hnot.
  apply report_inj in Hg. rewrite <- Hg. now apply in_map.
Qed.

(** Among fields of distinct names, a field's own diagnostic stands once
    among the reports when the field is missing, and not at all when it is
    not. *)
Lemma occurrences_field (pos : token.Pos) (tyName : string)
      (elts : list ast.Expr) (fields : list types.Var) (f : types.Var) :
  NoDup (map types.Name fields) ->
  In f fields ->
  occurrences (report pos tyName f)
              (map (report pos tyName) (filter (missing strictF elts) fields))
  = if missing strictF elts f then 1 else 0.
Proof.
  induction fields as [|g fields IH]; intros Hnd Hin; [destruct Hin|].
  cbn [map] in Hnd. apply NoDup_cons_iff in Hnd as [Hg Hnd].
  cbn [filter]. destruct Hin as [->|Hin].
  - destruct (missing strictF elts f).
    + cbn [map]. unfold occurrences. rewrite count_occ_cons_eq by reflexivity.
      f_equal. now apply occurrences_other.
    + now apply occurrences_other.
  - assert (report pos tyName g <> report pos tyName f) as Hne.
    { intros H. apply report_inj in H. apply Hg. rewrite H. now apply in_map. }
    destruct (missing strictF elts g).
    + cbn [map]. unfold occurrences. rewrite count_occ_cons_neq by exact Hne.
      now apply IH.
    + now apply IH.
Qed.

End Loops.

(* ================================================================= *)
(** ** The visit of one composite literal *)

Section Visit.

Import analysis props.

Variable strictF : bool.
Variable pass : Pass.

(** What the guards of [visit] leave of a literal: the missing fields when
    the literal reaches the loop over the fields, nothing otherwise. *)
Lemma visit_literal (ty : option ast.Expr) (lb rb : token.Pos)
      (elts : list ast.Expr) (sink : list Diagnostic) :
  let n := ast.CompositeLit ty lb elts rb in
  keyedlit.visit strictF pass n sink
  = (Done tt,
     sink ++
     if strings.HasSuffix (token.Filename (Fset pass (ast.Pos n))) "_test.go"
     then []
     else match types.Underlying (TypesInfo_TypeOf pass n),
                keyedlit.typeName ty,
                keyedlit.keyedScan false elts with
          | types.Struct fields, Some tyName, Some true =>
              map (report (ast.Pos n) tyName)
                  (filter (missing strictF elts) fields)
          | _, _, _ => []
          end).
Proof.
  intros n. subst n. unfold keyedlit.visit.
  destruct (strings.HasSuffix _ _); [unfold ret; now rewrite app_nil_r|].
  cbv beta iota zeta.
  destruct (types.Underlying _) as [| | | | | | |fields];
    try (unfold ret; now rewrite app_nil_r).
  destruct (keyedlit.typeName ty) as [tyName|];
    [|unfold ret; now rewrite app_nil_r].
  destruct (keyedlit.keyedScan false elts) as [[|]|] eqn:Hscan;
    try (unfold ret; now rewrite app_nil_r).
  apply keyedScan_accepts in Hscan as [_ Hk].
  now apply checkFields_keyed.
Qed.

(** An accepted literal gets its missing fields reported. *)
Lemma visit_accepted (n : ast.Expr) (fields : list types.Var)
      (tyName : string) (elts : list ast.Expr) (sink : list Diagnostic) :
  Accepted pass n fields tyName elts ->
  keyedlit.visit strictF pass n sink
  = (Done tt,
     sink ++ map (report (ast.Pos n) tyName)
                 (filter (missing strictF elts) fields)).
Proof.
  intros (Hfile & (ty & lb & rb & -> & Hname) & Hstruct & Hne & Hk).
  rewrite visit_literal. cbv zeta. rewrite Hfile, Hstruct, Hname.
  assert (keyedlit.keyedScan false elts = Some true) as ->
      by (apply keyedScan_accepts; auto).
  reflexivity.
Qed.

(** A literal that is not accepted gets nothing reported. *)
Lemma visit_rejected (ty : option ast.Expr) (lb rb : token.Pos)
      (elts : list ast.Expr) (sink : list Diagnostic) :
  let n := ast.CompositeLit ty lb elts rb in
  (forall fields tyName, ~ Accepted pass n fields tyName elts) ->
  keyedlit.visit strictF pass n sink = (Done tt, sink).
Proof.
  intros n Hrej.
  pose proof (visit_literal ty lb rb elts sink) as Hv.
  cbv zeta in Hv. fold n in Hv. rewrite Hv. clear Hv.
  destruct (strings.HasSuffix _ _) eqn:Hfile; [now rewrite app_nil_r|].
  destruct (types.Underlying (TypesInfo_TypeOf pass n))
    as [| | | | | | |fields] eqn:Hstruct;
    try now rewrite app_nil_r.
  destruct (keyedlit.typeName ty) as [tyName|] eqn:Hname;
    [|now rewrite app_nil_r].
  destruct (keyedlit.keyedScan false elts) as [[|]|] eqn:Hscan;
    try now rewrite app_nil_r.
  exfalso. apply (Hrej fields tyName).
  apply keyedScan_accepts in Hscan as [Hne Hk].
  split; [exact Hfile|].
  split; [exists ty, lb, rb; split; [reflexivity | exact Hname]|].
  split; [exact Hstruct|]. split; assumption.
Qed.

End Visit.

(* ================================================================= *)
(** ** The field rule *)

Section FieldRule.

Import props.

(** C3.  In default mode [mustBeSpecified] answers true exactly for the
    fields whose declared type prints as [time.Duration] and whose name
    contains [KeepAlive] or contains [Timeout], byte for byte; it answers
    false for every other field. *)
Theorem default_rule_iff (field : types.Var) :
  keyedlit.mustBeSpecified false field = true
  <-> types.Type_String field = "time.Duration"
      /\ (Substring "KeepAlive" (types.Name field)
          \/ Substring "Timeout" (types.Name field)).
Proof.
  unfold keyedlit.mustBeSpecified, Substring.
  rewrite <- !Contains_iff.
  destruct (strings.Contains (types.Name field) "KeepAlive"),
           (strings.Contains (types.Name field) "Timeout"),
           (String.eqb_spec (types.Type_String field) "time.Duration");
    cbn [andb]; intuition congruence.
Qed.

(** The match is on the exact bytes of the name, anywhere in it, and on the
    exact type. *)
Example default_rule_samples :
  keyedlit.mustBeSpecified false
    (types.mkVar "TCPKeepAlivePeriod" true "time.Duration") = true
  /\ keyedlit.mustBeSpecified false
       (types.mkVar "ReadTimeoutMax" true "time.Duration") = true
  /\ keyedlit.mustBeSpecified false
       (types.mkVar "readtimeout" true "time.Duration") = false
  /\ keyedlit.mustBeSpecified false
       (types.mkVar "Keepalive" true "time.Duration") = false
  /\ keyedlit.mustBeSpecified false
       (types.mkVar "ReadTimeout" true "int64") = false
  /\ keyedlit.mustBeSpecified false
       (types.mkVar "Interval" true "time.Duration") = false.
Proof. repeat split; vm_compute; reflexivity. Qed.

(** In strict mode the rule is the visibility of the field. *)
Lemma strict_rule (field : types.Var) :
  keyedlit.mustBeSpecified true field = types.Exported field.
Proof. reflexivity. Qed.

(** In default mode the rule does not read the visibility of the field. *)
Lemma default_rule_ignores_visibility (name ty : string) (e1 e2 : bool) :
  keyedlit.mustBeSpecified false (types.mkVar name e1 ty)
  = keyedlit.mustBeSpecified false (types.mkVar name e2 ty).
Proof. reflexivity. Qed.

Lemma missing_strict (elts : list ast.Expr) (field : types.Var) :
  missing true elts field
  = types.Exported field && negb (hasKey (types.Name field) elts).
Proof. reflexivity. Qed.

(** The key set read off the elements. *)
Lemma hasKey_iff (name : string) (elts : list ast.Expr) :
  hasKey name elts = true
  <-> exists pos colon value,
        In (ast.KeyValueExpr (ast.Ident pos name) colon value) elts.
Proof.
  unfold hasKey. rewrite existsb_exists. split.
  - intros (e & Hin & He).
    destruct e as [| | | | | | |key colon value|]; try discriminate He.
    destruct key as [pos k| | | | | | | |]; try discriminate He.
    cbn [keyIs] in He. apply String.eqb_eq in He as ->. eauto.
  - intros (pos & colon & value & Hin).
    eexists; split; [exact Hin|]. cbn [keyIs]. apply String.eqb_refl.
Qed.

End FieldRule.

(* ================================================================= *)
(** ** Literals the pass skips *)

Section Skipped.

Import analysis props.

Variable strictF : bool.
Variable pass : Pass.

Lemma keyedScan_positional (b : bool) (elts : list ast.Expr) :
  (exists e, In e elts /\ ast.isKeyValueExpr e = false) ->
  keyedlit.keyedScan b elts = None.
Proof.
  revert b; induction elts as [|x elts IH]; intros b (e & Hin & He).
  - destruct Hin.
  - cbn [keyedlit.keyedScan]. destruct (ast.isKeyValueExpr x) eqn:Hx; auto.
    apply IH. destruct Hin as [->|Hin]; [congruence | eauto].
Qed.

(** C1, as the pass has it.  A composite literal with no elements is not a
    keyed literal for the pass: whatever its type and whatever fields the
    type requires, the visit ends normally and reports nothing, in both
    modes. *)
Theorem empty_literal_skipped (ty : option ast.Expr) (lb rb : token.Pos)
        (sink : list Diagnostic) :
  keyedlit.visit strictF pass (ast.CompositeLit ty lb [] rb) sink
  = (Done tt, sink).
Proof.
  pose proof (visit_literal strictF pass ty lb rb [] sink) as Hv.
  cbv zeta in Hv. rewrite Hv. cbn [keyedlit.keyedScan].
  destruct (strings.HasSuffix _ _); [now rewrite app_nil_r|].
  destruct (types.Underlying _); try now rewrite app_nil_r.
  destruct (keyedlit.typeName ty); now rewrite app_nil_r.
Qed.

(** C5.  A composite literal with an element that is no key/value pair gets
    no diagnostic, in both modes: the visit ends normally with the sink as
    it was, whatever the other elements and the fields are. *)
Theorem positional_element_no_diagnostic
        (ty : option ast.Expr) (lb rb : token.Pos) (elts : list ast.Expr)
        (sink : list Diagnostic) :
  (exists e, In e elts /\ ast.isKeyValueExpr e = false) ->
  keyedlit.visit strictF pass (ast.CompositeLit ty lb elts rb) sink
  = (Done tt, sink).
Proof.
  intros Hpos.
  pose proof (visit_literal strictF pass ty lb rb elts sink) as Hv.
  cbv zeta in Hv. rewrite Hv.
  rewrite (keyedScan_positional false elts Hpos).
  destruct (strings.HasSuffix _ _); [now rewrite app_nil_r|].
  destruct (types.Underlying _); try now rewrite app_nil_r.
  destruct (keyedlit.typeName ty); now rewrite app_nil_r.
Qed.

Lemma typeName_other (ty : option ast.Expr) :
  (forall pos name, ty <> Some (ast.Ident pos name)) ->
  (forall X pos sel, ty <> Some (ast.SelectorExpr X pos sel)) ->
  keyedlit.typeName ty = None.
Proof.
  intros Hid Hsel.
  destruct ty as [[pos name| |X pos sel| | | | | |]|]; try reflexivity.
  - now elim (Hid pos name).
  - now elim (Hsel X pos sel).
Qed.

(** C6.  A composite literal whose underlying type is not a struct, or whose
    type expression is neither an identifier nor a selector expression, is
    skipped: the visit ends normally, without a panic, and reports
    nothing. *)
Theorem non_struct_or_unnamed_skipped
        (ty : option ast.Expr) (lb rb : token.Pos) (elts : list ast.Expr)
        (sink : list Diagnostic) :
  let n := ast.CompositeLit ty lb elts rb in
  (forall fields,
      types.Underlying (TypesInfo_TypeOf pass n) <> types.Struct fields)
  \/ ((forall pos name, ty <> Some (ast.Ident pos name))
      /\ (forall X pos sel, ty <> Some (ast.SelectorExpr X pos sel))) ->
  keyedlit.visit strictF pass n sink = (Done tt, sink).
Proof.
  intros n H.
  pose proof (visit_literal strictF pass ty lb rb elts sink) as Hv.
  cbv zeta in Hv. fold n in Hv. rewrite Hv. clear Hv.
  destruct (strings.HasSuffix _ _); [now rewrite app_nil_r|].
  destruct H as [Hns|[Hid Hsel]].
  - destruct (types.Underlying _) as [| | | | | | |fields];
      try now rewrite app_nil_r.
    now elim (Hns fields).
  - rewrite (typeName_other ty Hid Hsel).
    destruct (types.Underlying _); now rewrite app_nil_r.
Qed.

(** C7.  A node whose position lies in a file whose name ends in [_test.go]
    gets no diagnostic, whatever it holds and in both modes. *)
Theorem test_file_no_diagnostic (n : ast.Expr) (sink : list Diagnostic) :
  (exists pre,
      token.Filename (Fset pass (ast.Pos n)) = (pre ++ "_test.go")%string) ->
  keyedlit.visit strictF pass n sink = (Done tt, sink).
Proof.
  intros Hfile. apply HasSuffix_iff in Hfile.
  unfold keyedlit.visit. now rewrite Hfile.
Qed.

End Skipped.

(* ================================================================= *)
(** ** Literals the pass checks *)

Section Checked.

Import analysis props.

(** The name [typeName] gives is the name written in the type expression. *)
Lemma typeName_iff (ty : option ast.Expr) (tyName : string) :
  keyedlit.typeName ty = Some tyName <-> unit.TypeNamed ty tyName.
Proof.
  split.
  - destruct ty as [[pos name| |X pos sel| | | | | |]|]; try discriminate;
      intros H; injection H as <-; constructor.
  - intros []; reflexivity.
Qed.

(** C8, as the pass has it.  The pass accepts a composite literal that lies
    outside the test files, whose underlying type is a struct, whose type
    expression is an identifier or a selector expression, whose elements are
    all key/value pairs, and that has at least one element (the literal with
    no elements is skipped).  For such a literal the visit ends normally and
    adds to the sink, for each field of the struct that is required and
    whose name is not in the key set, one diagnostic with the message
    [unspecified field <field name> of <type name>], the type name being
    the identifier or the selected identifier, at the position of the
    literal; the diagnostics stand in the order the struct declares the
    fields, and nothing else is added.  With the field names of the struct
    distinct, the diagnostic of a field stands exactly once among them when
    the field is required and absent, and not at all otherwise. *)
Theorem accepted_literal_reports_missing_in_order
        (strictF : bool) (pass : Pass) (ty : option ast.Expr)
        (lb rb : token.Pos) (elts : list ast.Expr)
        (fields : list types.Var) (tyName : string)
        (sink : list Diagnostic) :
  let n := ast.CompositeLit ty lb elts rb in
  unit.inTestFile pass n = false ->
  types.Underlying (TypesInfo_TypeOf pass n) = types.Struct fields ->
  unit.TypeNamed ty tyName ->
  fullyKeyed elts = true ->
  elts <> [] ->
  keyedlit.visit strictF pass n sink
  = (Done tt,
     sink ++
     map (fun field =>
            mkDiagnostic (ast.Pos n)
              ("unspecified field " ++ types.Name field ++ " of " ++ tyName)%string)
         (filter (fun field =>
                    keyedlit.mustBeSpecified strictF field
                    && negb (hasKey (types.Name field) elts))
                 fields))
  /\ (NoDup (map types.Name fields) ->
      forall field,
        In field fields ->
        occurrences
          (mkDiagnostic (ast.Pos n)
             ("unspecified field " ++ types.Name field ++ " of " ++ tyName)%string)
          (reported (keyedlit.visit strictF pass n))
        = if keyedlit.mustBeSpecified strictF field
             && negb (hasKey (types.Name field) elts)
          then 1 else 0).
Proof.
  intros n Hfile Hstruct Hname Hk Hne.
  assert (Accepted pass n fields tyName elts) as Hacc.
  { split; [exact Hfile|].
    split; [exists ty, lb, rb; split; [reflexivity|now apply typeName_iff]|].
    split; [exact Hstruct|]. split; assumption. }
  pose proof (visit_accepted strictF pass n fields tyName elts) as Hv.
  split; [exact (Hv sink Hacc)|].
  intros Hnd field Hin. unfold reported. rewrite (Hv [] Hacc).
  exact (occurrences_field strictF (ast.Pos n) tyName elts fields field
                           Hnd Hin).
Qed.

(** C4, as the pass has it.  In strict mode [mustBeSpecified] is the
    visibility of the field, whatever its name and declared type; and for a
    literal the pass accepts, which has at least one element, the
    diagnostics added are one for each exported field whose name is not in
    the key set, in the order of the fields; with the field names distinct,
    the diagnostic of such a field stands exactly once among them. *)
Theorem strict_mode_reports_exported :
  (forall field : types.Var,
      keyedlit.mustBeSpecified true field = types.Exported field)
  /\ (forall (pass : Pass) (n : ast.Expr) (fields : list types.Var)
             (tyName : string) (elts : list ast.Expr) (sink : list Diagnostic),
         Accepted pass n fields tyName elts ->
         keyedlit.visit true pass n sink
         = (Done tt,
            sink ++ map (report (ast.Pos n) tyName)
                        (filter (fun field =>
                                   types.Exported field
                                   && negb (hasKey (types.Name field) elts))
                                fields))
         /\ (NoDup (map types.Name fields) ->
             forall field,
               In field fields ->
               types.Exported field = true ->
               hasKey (types.Name field) elts = false ->
               occurrences (report (ast.Pos n) tyName field)
                           (reported (keyedlit.visit true pass n))
               = 1)).
Proof.
  split; [reflexivity|].
  intros pass n fields tyName elts sink Hacc.
  pose proof (visit_accepted true pass n fields tyName elts) as Hv.
  split; [exact (Hv sink Hacc)|].
  intros Hnd field Hin Hexp Habs. unfold reported. rewrite (Hv [] Hacc).
  cbn [snd app].
  rewrite (occurrences_field true (ast.Pos n) tyName elts fields field Hnd Hin).
  rewrite missing_strict, Hexp, Habs. reflexivity.
Qed.

(** C2, as the pass has it.  In strict mode every diagnostic a literal gets
    is for an exported field of its struct type, so an unexported field is
    never reported, whatever its name and type.  In default mode the rule
    does not read the visibility: two fields of one name and one declared
    type are required or not together, exported or not. *)
Theorem strict_reports_only_exported :
  (forall (pass : Pass) (ty : option ast.Expr) (lb rb : token.Pos)
          (elts : list ast.Expr) (sink : list Diagnostic),
      let n := ast.CompositeLit ty lb elts rb in
      exists (tyName : string) (reportedFields : list types.Var),
        keyedlit.visit true pass n sink
        = (Done tt, sink ++ map (report (ast.Pos n) tyName) reportedFields)
        /\ forall field,
             In field reportedFields ->
             types.Exported field = true
             /\ exists fields,
                  types.Underlying (TypesInfo_TypeOf pass n)
                  = types.Struct fields
                  /\ In field fields)
  /\ (forall (name ty : string) (e1 e2 : bool),
         keyedlit.mustBeSpecified false (types.mkVar name e1 ty)
         = keyedlit.mustBeSpecified false (types.mkVar name e2 ty)).
Proof.
  split; [|reflexivity].
  intros pass ty lb rb elts sink n.
  pose proof (visit_literal true pass ty lb rb elts sink) as Hv.
  cbv zeta in Hv. fold n in Hv. rewrite Hv. clear Hv.
  destruct (strings.HasSuffix _ _);
    [exists EmptyString, []; split; [reflexivity | intros f []]|].
  destruct (types.Underlying (TypesInfo_TypeOf pass n))
    as [| | | | | | |fields] eqn:Hstruct;
    try (exists EmptyString, []; split; [reflexivity | intros f []]).
  destruct (keyedlit.typeName ty) as [tyName|];
    [|exists EmptyString, []; split; [reflexivity | intros f []]].
  destruct (keyedlit.keyedScan false elts) as [[|]|];
    try (exists EmptyString, []; split; [reflexivity | intros f []]).
  exists tyName, (filter (missing true elts) fields).
  split; [reflexivity|].
  intros f Hf. apply filter_In in Hf as [Hin Hmiss].
  rewrite missing_strict in Hmiss. apply andb_true_iff in Hmiss as [Hexp _].
  split; [exact Hexp|]. exists fields. split; [reflexivity | exact Hin].
Qed.

End Checked.

(* ================================================================= *)
(** ** The run over a unit *)

Section Run.

Import analysis props.

Variable strictF : bool.
Variable pass : Pass.

(** A visit of a literal ends normally and appends what it reports. *)
Lemma visit_done (ty : option ast.Expr) (lb rb : token.Pos)
      (elts : list ast.Expr) (sink : list Diagnostic) :
  let n := ast.CompositeLit ty lb elts rb in
  keyedlit.visit strictF pass n sink
  = (Done tt, sink ++ reported (keyedlit.visit strictF pass n)).
Proof.
  intros n. unfold reported.
  pose proof (visit_literal strictF pass ty lb rb elts) as Hv.
  cbv zeta in Hv. fold n in Hv. rewrite (Hv sink), (Hv []). reflexivity.
Qed.

(** The traversal visits the literals in turn; each visit appends. *)
Lemma Preorder_visit (nodes : list ast.Expr) :
  exists ds, forall sink,
    Preorder nodes ast.isCompositeLit (keyedlit.visit strictF pass) sink
    = (Done tt, sink ++ ds).
Proof.
  induction nodes as [|n nodes [ds IH]].
  - exists []. intros sink. cbn. unfold ret. now rewrite app_nil_r.
  - destruct n as [| | | | | | | |ty lb elts rb];
      try (exists ds; intros sink; cbn [Preorder ast.isCompositeLit];
           unfold bind, ret; apply IH).
    exists (reported (keyedlit.visit strictF pass
                                     (ast.CompositeLit ty lb elts rb)) ++ ds).
    intros sink. cbn [Preorder ast.isCompositeLit]. unfold bind.
    rewrite (visit_done ty lb rb elts sink). rewrite IH.
    now rewrite app_assoc.
Qed.

Lemma run_done (sink : list Diagnostic) :
  keyedlit.run strictF pass sink
  = (Done tt, sink ++ reported (keyedlit.run strictF pass)).
Proof.
  unfold reported, keyedlit.run.
  destruct (Preorder_visit (ResultOf_inspect pass)) as [ds Hds].
  rewrite (Hds sink), (Hds []). reflexivity.
Qed.

(** C9.  For a fixed unit, type oracle and mode, a run reports one and the
    same sequence of diagnostics whatever the sink held before, and two
    runs in a row report that sequence twice, in the same order. *)
Theorem two_runs_report_the_same (sink : list Diagnostic) :
  keyedlit.run strictF pass sink
  = (Done tt, sink ++ reported (keyedlit.run strictF pass))
  /\ bind (keyedlit.run strictF pass)
          (fun _ => keyedlit.run strictF pass) sink
     = (Done tt,
        (sink ++ reported (keyedlit.run strictF pass))
        ++ reported (keyedlit.run strictF pass)).
Proof.
  split; [apply run_done|].
  unfold bind. rewrite (run_done sink). apply run_done.
Qed.

(** C10.  The unchecked assertion [el.(KeyValueExpr)] of the inner loop
    never fails in a run.  Where the scan of the elements lets a literal
    through, every element is a key/value pair and the inner loop ends
    normally for every field name; so the visit of any composite literal,
    and the run over any unit, end normally. *)
Theorem key_value_assertion_never_fails
        (ty : option ast.Expr) (lb rb : token.Pos) (elts : list ast.Expr)
        (sink : list Diagnostic) :
  (keyedlit.keyedScan false elts = Some true ->
   Forall (fun e => ast.isKeyValueExpr e = true) elts
   /\ forall fieldName s,
        exists b, keyedlit.fieldIsSpecified fieldName elts s = (Done b, s))
  /\ fst (keyedlit.visit strictF pass (ast.CompositeLit ty lb elts rb) sink)
     = Done tt
  /\ fst (keyedlit.run strictF pass sink) = Done tt.
Proof.
  split; [|split].
  - intros Hscan. apply keyedScan_accepts in Hscan as [_ Hk]. split.
    + apply Forall_forall. intros e He.
      unfold fullyKeyed in Hk. rewrite forallb_forall in Hk. now apply Hk.
    + intros fieldName s. exists (hasKey fieldName elts).
      now apply fieldIsSpecified_keyed.
  - pose proof (visit_done ty lb rb elts sink) as Hv. cbv zeta in Hv.
    now rewrite Hv.
  - now rewrite run_done.
Qed.

End Run.

(* ================================================================= *)
(** ** The sample unit under the pass *)

Section Sample.

Import analysis props.
Local Open Scope Z_scope.

(** [Client{Addr: "x"}]: the field [Timeout] is reported. *)
Example client_addr_reported :
  keyedlit.visit false sample.pass sample.client_addr []
  = (Done tt, [mkDiagnostic 100 "unspecified field Timeout of Client"]).
Proof. vm_compute. reflexivity. Qed.

(** [Client{Addr: "x", Timeout: 5}]: nothing is reported. *)
Example client_full_clean :
  keyedlit.visit false sample.pass sample.client_full [] = (Done tt, []).
Proof. vm_compute. reflexivity. Qed.

(** [Client{Addr: "x", 5}]: nothing is reported. *)
Example client_mixed_skipped :
  keyedlit.visit false sample.pass sample.client_mixed [] = (Done tt, []).
Proof. vm_compute. reflexivity. Qed.

(** [Opts{}]: nothing is reported, in either mode, though [Timeout] is
    required in both. *)
Example opts_empty_skipped :
  keyedlit.visit false sample.pass sample.opts_empty [] = (Done tt, [])
  /\ keyedlit.visit true sample.pass sample.opts_empty [] = (Done tt, [])
  /\ keyedlit.mustBeSpecified false sample.Timeout_ = true
  /\ keyedlit.mustBeSpecified true sample.Timeout_ = true.
Proof. repeat split; vm_compute; reflexivity. Qed.

(** Strict mode, [Opts{Retries: 3}]: [Timeout] is reported, the unexported
    [cache] is not. *)
Example opts_retries_strict :
  keyedlit.visit true sample.pass sample.opts_retries []
  = (Done tt, [mkDiagnostic 500 "unspecified field Timeout of Opts"]).
Proof. vm_compute. reflexivity. Qed.

(** Default mode, [Conn{Addr: "x"}]: the unexported [readTimeout] is
    reported; in strict mode it is not. *)
Example conn_addr_reported :
  keyedlit.visit false sample.pass sample.conn_addr []
  = (Done tt, [mkDiagnostic 600 "unspecified field readTimeout of Conn"])
  /\ keyedlit.visit true sample.pass sample.conn_addr [] = (Done tt, []).
Proof. split; vm_compute; reflexivity. Qed.

(** A literal of an unnamed struct type is skipped though a required field
    is missing; a literal whose type is named through a package is reported
    under the selected name. *)
Example unnamed_and_qualified :
  keyedlit.visit false sample.pass sample.unnamed_lit [] = (Done tt, [])
  /\ keyedlit.visit false sample.pass sample.qualified_lit []
     = (Done tt, [mkDiagnostic 900 "unspecified field Timeout of Client"]).
Proof. split; vm_compute; reflexivity. Qed.

(** The whole unit, in default mode. *)
Example sample_run :
  keyedlit.run false sample.pass []
  = (Done tt,
     [mkDiagnostic 100 "unspecified field Timeout of Client";
      mkDiagnostic 500 "unspecified field Timeout of Opts";
      mkDiagnostic 600 "unspecified field readTimeout of Conn";
      mkDiagnostic 900 "unspecified field Timeout of Client"]).
Proof. vm_compute. reflexivity. Qed.

(** Run on a literal with a positional element, the inner loop would
    panic at it: the assertion is a real one. *)
Example fieldIsSpecified_positional_panics :
  fst (keyedlit.fieldIsSpecified "Timeout" [ast.BasicLit 318 "5"] [])
  = Panicked "interface conversion: ast.Expr is not *ast.KeyValueExpr".
Proof. reflexivity. Qed.

(** *** Where the pass departs from the three rules *)

(** C1, as worded, fails: [Opts{}] in default mode is a struct literal with
    no elements whose field [Timeout] is required, and nothing is
    reported. *)
Lemma empty_literal_not_reported : ~ spec_empty_literal_reports_required.
Proof.
  intros Hspec.
  specialize (Hspec false sample.pass (Some (ast.Ident 400 "Opts")) 404 405
                    [sample.Timeout_; sample.Retries; sample.cache] "Opts" []).
  assert (StructLiteral sample.pass (Some (ast.Ident 400 "Opts")) 404 405 []
            [sample.Timeout_; sample.Retries; sample.cache] "Opts") as Hlit
      by (repeat split; vm_compute; reflexivity).
  specialize (Hspec Hlit). vm_compute in Hspec. discriminate Hspec.
Qed.

(** C2, as worded, fails: in default mode [Conn{Addr: "x"}] gets a
    diagnostic for the unexported field [readTimeout]. *)
Lemma unexported_field_reported_in_default_mode :
  ~ spec_unexported_never_reported.
Proof.
  intros Hspec.
  specialize (Hspec false sample.pass (Some (ast.Ident 600 "Conn")) 604 614
                    sample.conn_addr_elts
                    [sample.Addr; sample.readTimeout] "Conn"
                    sample.readTimeout).
  apply Hspec.
  - repeat split; vm_compute; reflexivity.
  - reflexivity.
  - right; left; reflexivity.
  - reflexivity.
  - vm_compute. left. reflexivity.
Qed.

(** C4, as worded, fails: in strict mode [Opts{}] has no positional
    element and leaves the exported fields [Timeout] and [Retries] out, and
    nothing is reported. *)
Lemma strict_empty_literal_not_reported :
  ~ spec_strict_reports_each_exported.
Proof.
  intros Hspec.
  specialize (Hspec sample.pass (Some (ast.Ident 400 "Opts")) 404 405 []
                    [sample.Timeout_; sample.Retries; sample.cache] "Opts" []).
  assert (StructLiteral sample.pass (Some (ast.Ident 400 "Opts")) 404 405 []
            [sample.Timeout_; sample.Retries; sample.cache] "Opts") as Hlit
      by (repeat split; vm_compute; reflexivity).
  specialize (Hspec Hlit eq_refl). vm_compute in Hspec. discriminate Hspec.
Qed.

(** C8, as worded, fails: [netx.Client{}] is a struct literal with a
    derivable type name and no positional element, so the specification
    accepts it; its field [Timeout] is required and absent, and nothing is
    reported. *)
Lemma accepted_empty_literal_not_reported :
  ~ unit.spec_accepted_literal_reports_missing.
Proof.
  intros Hspec.
  specialize (Hspec false sample.pass
                    (Some (ast.SelectorExpr (ast.Ident 60 "netx") 64 "Client"))
                    71 72 [] [sample.Addr; sample.Timeout_] "Client" []
                    eq_refl eq_refl
                    (unit.TypeNamed_selector (ast.Ident 60 "netx") 64 "Client")
                    eq_refl).
  vm_compute in Hspec. discriminate Hspec.
Qed.

(** [netx.Client{}] under the pass: skipped in both modes. *)
Example qualified_empty_skipped :
  keyedlit.visit false sample.pass sample_more.qualified_empty []
  = (Done tt, [])
  /\ keyedlit.visit true sample.pass sample_more.qualified_empty []
     = (Done tt, []).
Proof. split; vm_compute; reflexivity. Qed.

End Sample.

(* ================================================================= *)
(** ** The properties at the sample unit *)

Section Instances.

Import analysis props.
Local Open Scope Z_scope.

(** [Client{Addr: "x", 5}] has a positional element and gets nothing. *)
Lemma positional_element_no_diagnostic_at_client_mixed :
  (exists e, In e sample.client_mixed_elts /\ ast.isKeyValueExpr e = false)
  /\ keyedlit.visit false sample.pass sample.client_mixed
                    [mkDiagnostic 1 "earlier"]
     = (Done tt, [mkDiagnostic 1 "earlier"]).
Proof.
  assert (exists e, In e sample.client_mixed_elts
                    /\ ast.isKeyValueExpr e = false) as Hpos.
  { exists (ast.BasicLit 318 "5"). split; [right; left|]; reflexivity. }
  split; [exact Hpos|].
  exact (positional_element_no_diagnostic false sample.pass _ _ _ _ _ Hpos).
Defined.

(** [Headers{"a": "b"}] is fully keyed, of a named map type, and gets
    nothing. *)
Lemma non_struct_skipped_at_headers :
  (forall fields,
      types.Underlying (TypesInfo_TypeOf sample.pass sample.headers_lit)
      <> types.Struct fields)
  /\ keyedlit.visit true sample.pass sample.headers_lit [] = (Done tt, []).
Proof.
  assert (forall fields,
             types.Underlying (TypesInfo_TypeOf sample.pass sample.headers_lit)
             <> types.Struct fields) as Hmap.
  { intros fields. vm_compute. discriminate. }
  split; [exact Hmap|].
  exact (non_struct_or_unnamed_skipped true sample.pass _ _ _ _ []
           (or_introl Hmap)).
Defined.

(** [Client{Addr: "x"}] in [client_test.go] gets nothing. *)
Lemma test_file_no_diagnostic_at_client_in_test :
  token.Filename (Fset sample.pass (ast.Pos sample.client_in_test))
  = ("client" ++ "_test.go")%string
  /\ keyedlit.visit false sample.pass sample.client_in_test [] = (Done tt, []).
Proof.
  assert (token.Filename (Fset sample.pass (ast.Pos sample.client_in_test))
          = ("client" ++ "_test.go")%string) as Hname by reflexivity.
  split; [exact Hname|].
  exact (test_file_no_diagnostic false sample.pass sample.client_in_test []
           (ex_intro _ "client"%string Hname)).
Defined.

Lemma client_addr_accepted :
  Accepted sample.pass sample.client_addr [sample.Addr; sample.Timeout_]
           "Client" sample.client_addr_elts.
Proof.
  split; [reflexivity|].
  split; [exists (Some (ast.Ident 100 "Client")), 106, 116; split; reflexivity|].
  split; [reflexivity|]. split; [discriminate | reflexivity].
Defined.

(** [netx.Client{Addr: "x"}] is accepted and gets the one diagnostic for
    [Timeout], under the selected name [Client], at the start of the
    literal. *)
Lemma accepted_literal_reports_at_qualified_lit :
  unit.TypeNamed (Some (ast.SelectorExpr (ast.Ident 900 "netx") 905 "Client"))
                 "Client"
  /\ sample_more.qualified_elts <> []
  /\ keyedlit.visit false sample.pass sample.qualified_lit []
     = (Done tt, [mkDiagnostic 900 "unspecified field Timeout of Client"]).
Proof.
  assert (sample_more.qualified_elts <> []) as Hne by discriminate.
  split; [constructor|]. split; [exact Hne|].
  exact (proj1 (accepted_literal_reports_missing_in_order false sample.pass
                  (Some (ast.SelectorExpr (ast.Ident 900 "netx") 905 "Client"))
                  911 921 sample_more.qualified_elts
                  [sample.Addr; sample.Timeout_] "Client" []
                  eq_refl eq_refl
                  (unit.TypeNamed_selector (ast.Ident 900 "netx") 905 "Client")
                  eq_refl Hne)).
Defined.

Lemma opts_retries_accepted :
  Accepted sample.pass sample.opts_retries
           [sample.Timeout_; sample.Retries; sample.cache]
           "Opts" sample.opts_retries_elts.
Proof.
  split; [reflexivity|].
  split; [exists (Some (ast.Ident 500 "Opts")), 504, 515; split; reflexivity|].
  split; [reflexivity|]. split; [discriminate | reflexivity].
Defined.

(** Strict mode, [Opts{Retries: 3}]: the exported [Timeout] is reported, the
    unexported [cache] is not. *)
Lemma strict_mode_reports_exported_at_opts_retries :
  Accepted sample.pass sample.opts_retries
           [sample.Timeout_; sample.Retries; sample.cache]
           "Opts" sample.opts_retries_elts
  /\ keyedlit.visit true sample.pass sample.opts_retries []
     = (Done tt, [mkDiagnostic 500 "unspecified field Timeout of Opts"]).
Proof.
  split; [exact opts_retries_accepted|].
  exact (proj1 (proj2 strict_mode_reports_exported sample.pass
                  sample.opts_retries
                  [sample.Timeout_; sample.Retries; sample.cache] "Opts"
                  sample.opts_retries_elts [] opts_retries_accepted)).
Defined.

(** [Client{Addr: "x"}] passes the scan, and the inner loop answers for the
    field [Timeout] without a panic. *)
Lemma key_value_assertion_at_client_addr :
  keyedlit.keyedScan false sample.client_addr_elts = Some true
  /\ exists b,
       keyedlit.fieldIsSpecified "Timeout" sample.client_addr_elts []
       = (Done b, []).
Proof.
  assert (keyedlit.keyedScan false sample.client_addr_elts = Some true)
    as Hscan by reflexivity.
  split; [exact Hscan|].
  exact (proj2 (proj1 (key_value_assertion_never_fails false sample.pass
                         (Some (ast.Ident 100 "Client")) 106 116
                         sample.client_addr_elts [])
                      Hscan)
               "Timeout"%string []).
Defined.

End Instances.

(* ================================================================= *)
(** ** Further properties of the pass *)

Section KeyNames.

Import analysis props unit.

Variable strictF : bool.
Variable pass : Pass.

(** The inner loop finds a field exactly when its name is among the
    identifier keys. *)
Lemma hasKey_keyNames (name : string) (elts : list ast.Expr) :
  hasKey name elts = true <-> In name (keyNames elts).
Proof.
  induction elts as [|e elts IH]; [split; [discriminate | intros []]|].
  unfold hasKey in *. cbn [existsb]. rewrite orb_true_iff, IH.
  destruct e as [| | | | | | |key colon value|]; cbn [keyIs keyNames];
    try (split; [intros [H|H]; [discriminate | exact H] | auto]).
  destruct key as [pos k| | | | | | | |]; cbn [keyIs keyNames];
    try (split; [intros [H|H]; [discriminate | exact H] | auto]).
  rewrite String.eqb_eq. cbn [In]. reflexivity.
Qed.

Lemma hasKey_false_keyNames (name : string) (elts : list ast.Expr) :
  hasKey name elts = false <-> ~ In name (keyNames elts).
Proof.
  rewrite <- hasKey_keyNames. destruct (hasKey name elts); split; intros H;
    try reflexivity; try discriminate; auto. now elim H.
Qed.

(** What the visit of a literal reports, without the sink. *)
Lemma reported_literal (ty : option ast.Expr) (lb rb : token.Pos)
      (elts : list ast.Expr) :
  reported (keyedlit.visit strictF pass (ast.CompositeLit ty lb elts rb))
  = if inTestFile pass (ast.CompositeLit ty lb elts rb) then []
    else match types.Underlying
                 (TypesInfo_TypeOf pass (ast.CompositeLit ty lb elts rb)),
               keyedlit.typeName ty,
               keyedlit.keyedScan false elts with
         | types.Struct fields, Some tyName, Some true =>
             map (report (ast.Pos (ast.CompositeLit ty lb elts rb)) tyName)
                 (filter (missing strictF elts) fields)
         | _, _, _ => []
         end.
Proof.
  unfold reported.
  pose proof (visit_literal strictF pass ty lb rb elts []) as Hv.
  cbv zeta in Hv. rewrite Hv. reflexivity.
Qed.

Lemma reported_accepted (n : ast.Expr) (fields : list types.Var)
      (tyName : string) (elts : list ast.Expr) :
  Accepted pass n fields tyName elts ->
  reported (keyedlit.visit strictF pass n)
  = map (report (ast.Pos n) tyName) (filter (missing strictF elts) fields).
Proof.
  intros Hacc. unfold reported.
  now rewrite (visit_accepted strictF pass n fields tyName elts [] Hacc).
Qed.

Lemma messages_accepted (n : ast.Expr) (fields : list types.Var)
      (tyName : string) (elts : list ast.Expr) :
  Accepted pass n fields tyName elts ->
  messages (keyedlit.visit strictF pass n)
  = map (fun f => unspecified (types.Name f) tyName)
        (filter (missing strictF elts) fields).
Proof.
  intros Hacc. unfold messages.
  rewrite (reported_accepted n fields tyName elts Hacc), map_map.
  reflexivity.
Qed.

(** X2.  Whatever the literal and the mode, each diagnostic of its visit is
    at the position of the literal and is for a field of its struct type
    that is required and whose name is no identifier key of the literal; the
    literal then lies outside the test files and has only key/value
    elements, at least one. *)
Theorem every_diagnostic_is_for_a_missing_field
        (ty : option ast.Expr) (lb rb : token.Pos) (elts : list ast.Expr)
        (d : Diagnostic) :
  let n := ast.CompositeLit ty lb elts rb in
  In d (reported (keyedlit.visit strictF pass n)) ->
  inTestFile pass n = false
  /\ Pos d = ast.Pos n
  /\ elts <> []
  /\ fullyKeyed elts = true
  /\ exists fields tyName field,
       types.Underlying (TypesInfo_TypeOf pass n) = types.Struct fields
       /\ keyedlit.typeName ty = Some tyName
       /\ In field fields
       /\ keyedlit.mustBeSpecified strictF field = true
       /\ ~ In (types.Name field) (keyNames elts)
       /\ Message d = unspecified (types.Name field) tyName.
Proof.
  intros n Hd. subst n. rewrite reported_literal in Hd.
  destruct (inTestFile pass _); [destruct Hd|].
  destruct (types.Underlying _) as [| | | | | | |fields];
    try (destruct Hd).
  destruct (keyedlit.typeName ty) as [tyName|]; [|destruct Hd].
  destruct (keyedlit.keyedScan false elts) as [[|]|] eqn:Hscan;
    try (destruct Hd).
  apply keyedScan_accepts in Hscan as [Hne Hk].
  apply in_map_iff in Hd as (f & <- & Hf).
  apply filter_In in Hf as [Hin Hmiss].
  unfold missing in Hmiss. apply andb_true_iff in Hmiss as [Hreq Habs].
  apply negb_true_iff, hasKey_false_keyNames in Habs.
  repeat split; auto. exists fields, tyName, f. repeat split; auto.
Qed.

(** X3.  An accepted literal gets no diagnostic exactly when the name of
    every required field of the struct is among its identifier keys. *)
Theorem accepted_literal_clean_iff
        (n : ast.Expr) (fields : list types.Var) (tyName : string)
        (elts : list ast.Expr) :
  Accepted pass n fields tyName elts ->
  (reported (keyedlit.visit strictF pass n) = []
   <-> forall field,
         In field fields ->
         keyedlit.mustBeSpecified strictF field = true ->
         In (types.Name field) (keyNames elts)).
Proof.
  intros Hacc. rewrite (reported_accepted n fields tyName elts Hacc). split.
  - intros Hnil field Hin Hreq. apply hasKey_keyNames.
    destruct (hasKey (types.Name field) elts) eqn:Hkey; [reflexivity|].
    assert (In field (filter (missing strictF elts) fields)) as Hf.
    { apply filter_In. split; [exact Hin|]. unfold missing.
      now rewrite Hreq, Hkey. }
    apply (in_map (report (ast.Pos n) tyName)) in Hf.
    rewrite Hnil in Hf. destruct Hf.
  - intros Hall. clear Hacc.
    assert (filter (missing strictF elts) fields = []) as ->; [|reflexivity].
    induction fields as [|f fs IH]; [reflexivity|].
    cbn [filter]. unfold missing at 1.
    destruct (keyedlit.mustBeSpecified strictF f) eqn:Hreq; cbn [andb].
    + assert (hasKey (types.Name f) elts = true) as ->
          by (apply hasKey_keyNames, Hall; [now left | exact Hreq]).
      cbn [negb]. apply IH. intros g Hg. apply Hall. now right.
    + apply IH. intros g Hg. apply Hall. now right.
Qed.

End KeyNames.

Section KeySets.

Import analysis props unit.

Variable strictF : bool.
Variable pass : Pass.

Lemma unspecified_inj (a b tyName : string) :
  unspecified a tyName = unspecified b tyName -> a = b.
Proof.
  unfold unspecified. intros H. injection H as H.
  now apply append_inj_r in H.
Qed.

Lemma unspecified_eqb (a b tyName : string) :
  (unspecified a tyName =? unspecified b tyName)%string = (a =? b)%string.
Proof.
  destruct (String.eqb_spec a b) as [->|Hne].
  - apply String.eqb_refl.
  - apply String.eqb_neq. intros H. now apply unspecified_inj in H.
Qed.

Lemma filter_andb {A} (p q : A -> bool) (l : list A) :
  filter (fun x => p x && q x) l = filter q (filter p l).
Proof.
  induction l as [|x l IH]; [reflexivity|]. cbn [filter].
  destruct (p x); cbn [andb filter]; [destruct (q x)|]; congruence.
Qed.

Lemma filter_map_comm {A B} (g : A -> B) (p : B -> bool) (l : list A) :
  filter p (map g l) = map g (filter (fun x => p (g x)) l).
Proof.
  induction l as [|x l IH]; [reflexivity|]. cbn [map filter].
  destruct (p (g x)); cbn [map]; congruence.
Qed.

(** X4.  The messages of an accepted literal depend on its elements only
    through the set of names it gives as identifier keys: two accepted
    literals of one struct type and type name with the same set of key names
    get the same messages, whatever the order of their elements, the values,
    repeated keys and keys that are no identifiers. *)
Theorem messages_depend_on_key_names
        (n1 n2 : ast.Expr) (fields : list types.Var) (tyName : string)
        (elts1 elts2 : list ast.Expr) :
  Accepted pass n1 fields tyName elts1 ->
  Accepted pass n2 fields tyName elts2 ->
  (forall name, In name (keyNames elts1) <-> In name (keyNames elts2)) ->
  messages (keyedlit.visit strictF pass n1)
  = messages (keyedlit.visit strictF pass n2).
Proof.
  intros H1 H2 Hkeys.
  rewrite (messages_accepted strictF pass n1 fields tyName elts1 H1).
  rewrite (messages_accepted strictF pass n2 fields tyName elts2 H2).
  f_equal. apply filter_ext. intros f. unfold missing. f_equal. f_equal.
  apply Bool.eq_iff_eq_true. rewrite !hasKey_keyNames. apply Hkeys.
Qed.

(** X5.  Giving one more field name as a key removes the messages for that
    field and no other: if a second accepted literal of the same struct type
    has the key names of the first and the name [name], its messages are
    those of the first without the message for [name], in the same order. *)
Theorem one_more_key_silences_its_field
        (n1 n2 : ast.Expr) (fields : list types.Var) (tyName name : string)
        (elts1 elts2 : list ast.Expr) :
  Accepted pass n1 fields tyName elts1 ->
  Accepted pass n2 fields tyName elts2 ->
  (forall x, In x (keyNames elts2) <-> x = name \/ In x (keyNames elts1)) ->
  messages (keyedlit.visit strictF pass n2)
  = filter (fun m => negb (m =? unspecified name tyName)%string)
           (messages (keyedlit.visit strictF pass n1)).
Proof.
  intros H1 H2 Hkeys.
  rewrite (messages_accepted strictF pass n1 fields tyName elts1 H1).
  rewrite (messages_accepted strictF pass n2 fields tyName elts2 H2).
  rewrite filter_map_comm, <- filter_andb. f_equal.
  apply filter_ext. intros f. rewrite unspecified_eqb. unfold missing.
  assert (hasKey (types.Name f) elts2
          = (types.Name f =? name)%string || hasKey (types.Name f) elts1) as ->.
  { apply Bool.eq_iff_eq_true.
    rewrite orb_true_iff, !hasKey_keyNames, String.eqb_eq. apply Hkeys. }
  destruct (keyedlit.mustBeSpecified strictF f),
           (types.Name f =? name)%string,
           (hasKey (types.Name f) elts1); reflexivity.
Qed.

End KeySets.

Section Modes.

Import analysis props unit.

Variable pass : Pass.

Lemma default_rule_needs_duration (field : types.Var) :
  types.Type_String field <> "time.Duration"%string ->
  keyedlit.mustBeSpecified false field = false.
Proof.
  intros Hty. unfold keyedlit.mustBeSpecified.
  apply String.eqb_neq in Hty. rewrite Hty, !andb_false_r. reflexivity.
Qed.

(** X6.  On a literal whose struct type has exported fields only, strict
    mode reports every diagnostic that default mode reports. *)
Theorem strict_reports_what_default_reports
        (ty : option ast.Expr) (lb rb : token.Pos) (elts : list ast.Expr) :
  let n := ast.CompositeLit ty lb elts rb in
  (forall fields field,
      types.Underlying (TypesInfo_TypeOf pass n) = types.Struct fields ->
      In field fields -> types.Exported field = true) ->
  incl (reported (keyedlit.visit false pass n))
       (reported (keyedlit.visit true pass n)).
Proof.
  intros n Hexp. subst n. rewrite !reported_literal.
  destruct (inTestFile pass _); [apply incl_refl|].
  destruct (types.Underlying _) as [| | | | | | |fields] eqn:Hstruct;
    try apply incl_refl.
  destruct (keyedlit.typeName ty) as [tyName|]; [|apply incl_refl].
  destruct (keyedlit.keyedScan false elts) as [[|]|]; try apply incl_refl.
  intros d Hd. apply in_map_iff in Hd as (f & <- & Hf).
  apply filter_In in Hf as [Hin Hmiss]. apply in_map, filter_In.
  split; [exact Hin|]. rewrite missing_strict.
  rewrite (Hexp fields f eq_refl Hin). unfold missing in Hmiss.
  apply andb_true_iff in Hmiss as [_ Habs]. exact Habs.
Qed.

(** X7.  In default mode a literal of a struct type none of whose fields is
    declared as [time.Duration] gets no diagnostic, whatever the fields are
    called and whichever keys the literal gives. *)
Theorem no_duration_field_no_default_diagnostic
        (ty : option ast.Expr) (lb rb : token.Pos) (elts : list ast.Expr)
        (sink : list Diagnostic) :
  let n := ast.CompositeLit ty lb elts rb in
  (forall fields field,
      types.Underlying (TypesInfo_TypeOf pass n) = types.Struct fields ->
      In field fields ->
      types.Type_String field <> "time.Duration"%string) ->
  keyedlit.visit false pass n sink = (Done tt, sink).
Proof.
  intros n Hty. subst n.
  pose proof (visit_literal false pass ty lb rb elts sink) as Hv.
  cbv zeta in Hv. rewrite Hv. clear Hv.
  destruct (strings.HasSuffix _ _); [now rewrite app_nil_r|].
  destruct (types.Underlying _) as [| | | | | | |fields] eqn:Hstruct;
    try now rewrite app_nil_r.
  destruct (keyedlit.typeName ty) as [tyName|]; [|now rewrite app_nil_r].
  destruct (keyedlit.keyedScan false elts) as [[|]|];
    try now rewrite app_nil_r.
  assert (filter (missing false elts) fields = []) as ->.
  { assert (forall field, In field fields ->
                            types.Type_String field <> "time.Duration"%string)
      as Hall by (intros g Hg; exact (Hty fields g eq_refl Hg)).
    clear Hty Hstruct.
    induction fields as [|f fs IH]; [reflexivity|].
    cbn [filter]. unfold missing at 1.
    rewrite (default_rule_needs_duration f) by (apply Hall; now left).
    cbn [andb]. apply IH. intros g Hg. apply Hall. now right. }
  now rewrite app_nil_r.
Qed.

End Modes.

Section Units.

Import analysis props unit.

Variable strictF : bool.

(** The traversal reports, literal after literal, what each visit
    reports. *)
Lemma Preorder_reports (pass : Pass) (nodes : list ast.Expr)
      (sink : list Diagnostic) :
  Preorder nodes ast.isCompositeLit (keyedlit.visit strictF pass) sink
  = (Done tt,
     sink ++ flat_map (fun n => reported (keyedlit.visit strictF pass n))
                      (filter ast.isCompositeLit nodes)).
Proof.
  revert sink; induction nodes as [|n nodes IH]; intros sink.
  - cbn. unfold ret. now rewrite app_nil_r.
  - destruct n as [| | | | | | | |ty lb elts rb];
      try (cbn [Preorder ast.isCompositeLit filter]; unfold bind, ret;
           apply IH).
    cbn [Preorder ast.isCompositeLit filter flat_map]. unfold bind.
    pose proof (visit_done strictF pass ty lb rb elts sink) as Hv.
    cbv zeta in Hv. rewrite Hv, IH. now rewrite app_assoc.
Qed.

(** X1.  A run ends normally and adds to the sink, for the composite
    literals of the unit in the order of the traversal, what the visit of
    each reports on its own; the other nodes add nothing, and no visit
    depends on the visits before it. *)
Theorem run_reports_each_literal_in_turn
        (pass : Pass) (sink : list Diagnostic) :
  keyedlit.run strictF pass sink
  = (Done tt,
     sink ++ flat_map (fun n => reported (keyedlit.visit strictF pass n))
                      (filter ast.isCompositeLit (ResultOf_inspect pass))).
Proof. apply Preorder_reports. Qed.

Lemma reported_in_test_file (pass : Pass) (n : ast.Expr) :
  inTestFile pass n = true ->
  reported (keyedlit.visit strictF pass n) = [].
Proof.
  unfold inTestFile, reported, keyedlit.visit. now intros ->.
Qed.

(** X8.  The nodes that lie in test files can be left out of the unit: the
    run over the remaining nodes reports the same diagnostics, in the same
    order. *)
Theorem test_file_nodes_can_be_dropped (pass : Pass) :
  reported (keyedlit.run strictF pass)
  = reported (keyedlit.run strictF
                (withNodes pass
                   (filter (fun n => negb (inTestFile pass n))
                           (ResultOf_inspect pass)))).
Proof.
  unfold reported, keyedlit.run. rewrite !Preorder_reports. cbn [snd app].
  unfold withNodes. cbn [ResultOf_inspect].
  induction (ResultOf_inspect pass) as [|n nodes IH]; [reflexivity|].
  cbn [filter]. destruct (inTestFile pass n) eqn:Htest; cbn [negb].
  - destruct (ast.isCompositeLit n); [|exact IH].
    cbn [flat_map]. rewrite (reported_in_test_file pass n Htest). exact IH.
  - cbn [filter]. destruct (ast.isCompositeLit n); [|exact IH].
    cbn [flat_map]. f_equal. exact IH.
Qed.

End Units.

(* ================================================================= *)
(** ** The further properties at the sample unit *)

Section MoreInstances.

Import analysis props unit.
Local Open Scope Z_scope.

(** The diagnostic of [Client{Addr: "x"}] is at the literal, outside the
    test files. *)
Lemma every_diagnostic_at_client_addr :
  In (mkDiagnostic 100 "unspecified field Timeout of Client")
     (reported (keyedlit.visit false sample.pass sample.client_addr))
  /\ inTestFile sample.pass sample.client_addr = false
  /\ Pos (mkDiagnostic 100 "unspecified field Timeout of Client")
     = ast.Pos sample.client_addr.
Proof.
  assert (In (mkDiagnostic 100 "unspecified field Timeout of Client")
             (reported (keyedlit.visit false sample.pass sample.client_addr)))
    as Hin by (left; reflexivity).
  split; [exact Hin|].
  pose proof (every_diagnostic_is_for_a_missing_field false sample.pass
                (Some (ast.Ident 100 "Client")) 106 116
                sample.client_addr_elts _ Hin) as H.
  cbv zeta in H. split; [exact (proj1 H) | exact (proj1 (proj2 H))].
Defined.

Lemma client_full_accepted :
  Accepted sample.pass sample.client_full [sample.Addr; sample.Timeout_]
           "Client" sample_more.client_full_elts.
Proof.
  split; [reflexivity|].
  split; [exists (Some (ast.Ident 200 "Client")), 206, 228; split; reflexivity|].
  split; [reflexivity|]. split; [discriminate | reflexivity].
Defined.

Lemma client_odd_accepted :
  Accepted sample.pass sample_more.client_odd [sample.Addr; sample.Timeout_]
           "Client" sample_more.client_odd_elts.
Proof.
  split; [reflexivity|].
  split; [exists (Some (ast.Ident 10 "Client")), 16, 34; split; reflexivity|].
  split; [reflexivity|]. split; [discriminate | reflexivity].
Defined.

(** [Client{Addr: "x", Timeout: 5}] names its one required field and is
    clean. *)
Lemma accepted_literal_clean_at_client_full :
  (forall field,
      In field [sample.Addr; sample.Timeout_] ->
      keyedlit.mustBeSpecified false field = true ->
      In (types.Name field) (keyNames sample_more.client_full_elts))
  /\ reported (keyedlit.visit false sample.pass sample.client_full) = [].
Proof.
  assert (forall field,
             In field [sample.Addr; sample.Timeout_] ->
             keyedlit.mustBeSpecified false field = true ->
             In (types.Name field) (keyNames sample_more.client_full_elts)) as Hall.
  { intros field [<-|[<-|[]]] Hreq.
    - discriminate Hreq.
    - right; left; reflexivity. }
  split; [exact Hall|].
  exact (proj2 (accepted_literal_clean_iff false sample.pass
                  sample.client_full [sample.Addr; sample.Timeout_] "Client"
                  sample_more.client_full_elts client_full_accepted) Hall).
Defined.

(** [Client{Addr: "x"}] and [Client{a.B: 1, Addr: "y"}] give the same key
    names and get the same message. *)
Lemma messages_depend_on_key_names_at_client :
  (forall name,
      In name (keyNames sample.client_addr_elts)
      <-> In name (keyNames sample_more.client_odd_elts))
  /\ messages (keyedlit.visit false sample.pass sample.client_addr)
     = messages (keyedlit.visit false sample.pass sample_more.client_odd).
Proof.
  assert (forall name,
             In name (keyNames sample.client_addr_elts)
             <-> In name (keyNames sample_more.client_odd_elts)) as Hkeys
      by (intros name; reflexivity).
  split; [exact Hkeys|].
  exact (messages_depend_on_key_names false sample.pass
           sample.client_addr sample_more.client_odd
           [sample.Addr; sample.Timeout_] "Client"
           sample.client_addr_elts sample_more.client_odd_elts
           client_addr_accepted client_odd_accepted Hkeys).
Defined.

(** From [Client{Addr: "x"}] to [Client{Addr: "x", Timeout: 5}] the message
    for [Timeout] goes. *)
Lemma one_more_key_at_client :
  (forall x,
      In x (keyNames sample_more.client_full_elts)
      <-> x = "Timeout"%string \/ In x (keyNames sample.client_addr_elts))
  /\ messages (keyedlit.visit false sample.pass sample.client_full)
     = filter (fun m => negb (m =? unspecified "Timeout" "Client")%string)
              (messages (keyedlit.visit false sample.pass sample.client_addr)).
Proof.
  assert (forall x,
             In x (keyNames sample_more.client_full_elts)
             <-> x = "Timeout"%string
                 \/ In x (keyNames sample.client_addr_elts)) as Hkeys.
  { intros x. cbn. split.
    - intros [H|[H|[]]]; auto.
    - intros [H|[H|[]]]; auto. }
  split; [exact Hkeys|].
  exact (one_more_key_silences_its_field false sample.pass
           sample.client_addr sample.client_full
           [sample.Addr; sample.Timeout_] "Client" "Timeout"
           sample.client_addr_elts sample_more.client_full_elts
           client_addr_accepted client_full_accepted Hkeys).
Defined.

(** [Client] has exported fields only: what default mode reports for
    [Client{Addr: "x"}], strict mode reports too. *)
Lemma strict_reports_what_default_reports_at_client_addr :
  (forall fields field,
      types.Underlying (TypesInfo_TypeOf sample.pass sample.client_addr)
      = types.Struct fields ->
      In field fields -> types.Exported field = true)
  /\ incl (reported (keyedlit.visit false sample.pass sample.client_addr))
          (reported (keyedlit.visit true sample.pass sample.client_addr)).
Proof.
  assert (forall fields field,
             types.Underlying (TypesInfo_TypeOf sample.pass sample.client_addr)
             = types.Struct fields ->
             In field fields -> types.Exported field = true) as Hexp.
  { intros fields field Hs. cbv in Hs. injection Hs as <-.
    intros [<-|[<-|[]]]; reflexivity. }
  split; [exact Hexp|].
  exact (strict_reports_what_default_reports sample.pass
           (Some (ast.Ident 100 "Client")) 106 116 sample.client_addr_elts
           Hexp).
Defined.

(** [Point{X: 1}] leaves [Y] out; [Point] has no duration field and default
    mode reports nothing. *)
Lemma no_duration_field_at_point :
  (forall fields field,
      types.Underlying (TypesInfo_TypeOf sample_more.pass sample_more.point_lit)
      = types.Struct fields ->
      In field fields ->
      types.Type_String field <> "time.Duration"%string)
  /\ keyedlit.visit false sample_more.pass sample_more.point_lit []
     = (Done tt, []).
Proof.
  assert (forall fields field,
             types.Underlying
               (TypesInfo_TypeOf sample_more.pass sample_more.point_lit)
             = types.Struct fields ->
             In field fields ->
             types.Type_String field <> "time.Duration"%string) as Hty.
  { intros fields field Hs. cbv in Hs. injection Hs as <-.
    intros [<-|[<-|[]]]; discriminate. }
  split; [exact Hty|].
  exact (no_duration_field_no_default_diagnostic sample_more.pass
           (Some (ast.Ident 40 "Point")) 45 50 sample_more.point_elts []
           Hty).
Defined.

End MoreInstances.
